(** * Order aggregation and container packing (OOP/order.py)

    A shallow embedding of the classes [OrderItem], [Order], [Container],
    [OrderAggregator] and [ContainerAggregator] of [OOP/order.py], and the
    properties of [aggregate_order], [remove_items] and
    [prepare_containers]; then the classes [Card] and [Hand] of
    [OOP/poker.py] and [Animal] and [Zoo] of [OOP/zoo.py], with the
    properties of the hand types and of the zoo roster.

    Python's [int] is unbounded and signed: it is [Z].  A [str] is a
    [string]; a field that may hold [None] is an [option].  Every class is a
    module, so that the attributes keep the names they have in the source.
    A method of a class with mutable state takes the instance and returns
    the instance after the call together with what the call produced. *)

From Stdlib Require Import ZArith List String Bool Permutation Lia.
From Stdlib Require Import Sorted.
Import ListNotations.
Open Scope Z_scope.

(** ** Builtins *)

(** [sum(iterable)]: starts from 0 and adds the elements from left to
    right. *)
Definition sum (l : list Z) : Z := fold_left Z.add l 0.

(** The exceptions the modelled code can raise. *)
Inductive exn : Type :=
| ValueError.

(** What a call produces: a returned value, or a raised exception. *)
Inductive outcome (A : Type) : Type :=
| Return (a : A)
| Raise (e : exn).

Arguments Return {A} a.
Arguments Raise {A} e.

(** [destination == destination] on values that are a [str] or [None]. *)
Definition destination_eqb (a b : option string) : bool :=
  match a, b with
  | Some x, Some y => String.eqb x y
  | None, None => true
  | _, _ => false
  end.

(** ** class OrderItem *)

Module OrderItem.

Record t : Type := mk {
  customer : string;
  name : string;
  quantity : Z;
  one_item_volume : Z
}.

Definition total_volume (self : t) : Z :=
  quantity self * one_item_volume self.

(** The [__eq__] a dataclass generates: the tuples of fields are compared. *)
Definition eqb (a b : t) : bool :=
  String.eqb (customer a) (customer b)
  && String.eqb (name a) (name b)
  && (quantity a =? quantity b)
  && (one_item_volume a =? one_item_volume b).

Definition eq_dec (a b : t) : {a = b} + {a <> b}.
Proof.
  decide equality; solve [apply Z.eq_dec | apply string_dec].
Defined.

End OrderItem.

(** ** class Order *)

Module Order.

Record t : Type := mk {
  order_items : list OrderItem.t;
  destination : option string
}.

Definition total_quantity (self : t) : Z :=
  sum (map OrderItem.quantity (order_items self)).

Definition total_volume (self : t) : Z :=
  sum (map OrderItem.total_volume (order_items self)).

End Order.

(** ** class Container *)

Module Container.

Record t : Type := mk {
  volume : Z;
  orders : list Order.t
}.

Definition volume_left (self : t) : Z :=
  volume self - sum (map Order.total_volume (orders self)).

(** [container.orders.append(order)] *)
Definition append (self : t) (order : Order.t) : t :=
  mk (volume self) (orders self ++ [order]).

End Container.

(** ** class OrderAggregator *)

(** [list.remove(x)]: deletes the first element equal to [x]; [None] stands
    for the [ValueError] raised when there is none. *)
Fixpoint list_remove (x : OrderItem.t) (l : list OrderItem.t)
  : option (list OrderItem.t) :=
  match l with
  | [] => None
  | y :: l' =>
      if OrderItem.eqb y x then Some l'
      else option_map (cons y) (list_remove x l')
  end.

Module OrderAggregator.

Record t : Type := mk {
  order_items : list OrderItem.t
}.

Definition init : t := mk [].

Definition add_item (item : OrderItem.t) (self : t) : t * outcome unit :=
  (mk (order_items self ++ [item]), Return tt).

(** The loop of [remove_items] over a list object that is not the pool
    itself, so that the list the loop reads does not change while the pool
    does ([remove_pool_items] below is the loop over the pool itself).  An
    exception leaves the loop with the items removed so far gone from the
    pool. *)
Fixpoint remove_items (items : list OrderItem.t) (self : t)
  : t * outcome unit :=
  match items with
  | [] => (self, Return tt)
  | item :: rest =>
      match list_remove item (order_items self) with
      | Some l => remove_items rest (mk l)
      | None => (self, Raise ValueError)
      end
  end.

(** [items] is a new list, built by the comprehension: [remove_items] is
    given a list that is not the pool. *)
Definition aggregate_order (customer : string) (max_items_quantity max_volume : Z)
  (self : t) : t * outcome (option Order.t) :=
  let items :=
    filter (fun item => String.eqb (OrderItem.customer item) customer)
           (order_items self) in
  let total_quantity := sum (map OrderItem.quantity items) in
  let total_volume := sum (map OrderItem.total_volume items) in
  if (total_quantity <=? max_items_quantity) && (total_volume <=? max_volume)
  then
    let order := Order.mk items None in
    match remove_items items self with
    | (self', Return _) => (self', Return (Some order))
    | (self', Raise e) => (self', Raise e)
    end
  else (self, Return None).

(** [add_item] called for each item of a list, in order. *)
Fixpoint add_items (items : list OrderItem.t) (self : t) : t :=
  match items with
  | [] => self
  | item :: rest => add_items rest (fst (add_item item self))
  end.

(** The list object a caller gives to [remove_items]: a list of its own,
    or the pool itself ([aggregator.order_items]). *)
Inductive items_object : Type :=
| OtherList (items : list OrderItem.t)
| PoolList.

(** The loop of [remove_items] when [items] is the pool itself.  The [for]
    statement keeps an index: it takes the element the list has at that
    index when it is asked for the next item, and ends when the index has
    reached the length the list has by then; every [remove] shortens the
    list it reads.  [steps] bounds the number of iterations; the length of
    the pool is enough, as every iteration removes one item. *)
Fixpoint remove_pool_items (steps index : nat) (self : t) : t * outcome unit :=
  match steps with
  | O => (self, Return tt)
  | S steps' =>
      match nth_error (order_items self) index with
      | None => (self, Return tt)
      | Some item =>
          match list_remove item (order_items self) with
          | Some l => remove_pool_items steps' (S index) (mk l)
          | None => (self, Raise ValueError)
          end
      end
  end.

(** [remove_items(items)], for either kind of list object. *)
Definition remove_items_call (items : items_object) (self : t)
  : t * outcome unit :=
  match items with
  | OtherList l => remove_items l self
  | PoolList => remove_pool_items (List.length (order_items self)) O self
  end.

End OrderAggregator.

(** ** class ContainerAggregator *)

(** The mapping [prepare_containers] builds is a [defaultdict(list)].  A
    Python dict iterates in the order its keys were inserted and the scan
    below depends on it, so the mapping is the list of its
    (destination, container list) entries in insertion order. *)
Definition containers_dict : Type := list (option string * list Container.t).

(** [containers.get(destination)] *)
Fixpoint dict_get (destination : option string) (containers : containers_dict)
  : option (list Container.t) :=
  match containers with
  | [] => None
  | (k, container_list) :: rest =>
      if destination_eqb k destination then Some container_list
      else dict_get destination rest
  end.

(** [containers[destination].append(container)]: a missing key is first
    inserted, at the end, with an empty list. *)
Fixpoint dict_append (destination : option string) (container : Container.t)
  (containers : containers_dict) : containers_dict :=
  match containers with
  | [] => [(destination, [container])]
  | (k, container_list) :: rest =>
      if destination_eqb k destination
      then (k, container_list ++ [container]) :: rest
      else (k, container_list) :: dict_append destination container rest
  end.

Module ContainerAggregator.

Record t : Type := mk {
  container_volume : Z;
  not_used_orders : list Order.t
}.

Definition init (container_volume : Z) : t := mk container_volume [].

(** The condition of the generator expression in [prepare_containers]. *)
Definition qualifies (order : Order.t) (destination : option string)
  (c : Container.t) : bool :=
  (Order.total_volume order <=? Container.volume_left c)
  && destination_eqb (Order.destination order) destination.

(** [next((c for c in container_list if ...), None)] followed by
    [container.orders.append(order)]: the first qualifying container of the
    list gets the order; [None] when [next] finds no container. *)
Fixpoint append_to_first (order : Order.t) (destination : option string)
  (container_list : list Container.t) : option (list Container.t) :=
  match container_list with
  | [] => None
  | c :: rest =>
      if qualifies order destination c
      then Some (Container.append c order :: rest)
      else option_map (cons c) (append_to_first order destination rest)
  end.

(** The loop over [containers.items()], left by [break] at the first entry
    that has a qualifying container; [None] when [placed] stays [False]. *)
Fixpoint place_in_existing (order : Order.t) (containers : containers_dict)
  : option containers_dict :=
  match containers with
  | [] => None
  | (destination, container_list) :: rest =>
      match append_to_first order destination container_list with
      | Some container_list' => Some ((destination, container_list') :: rest)
      | None =>
          option_map (cons (destination, container_list))
                     (place_in_existing order rest)
      end
  end.

(** The body of the loop over [orders].  A [Container] defines neither
    [__bool__] nor [__len__], so [if container:] only tells a container
    from the [None] of [next]. *)
Definition place_order (self : t) (containers : containers_dict)
  (order : Order.t) : containers_dict :=
  match place_in_existing order containers with
  | Some containers' => containers'
  | None =>
      let container := Container.mk (container_volume self) [] in
      let container := Container.append container order in
      dict_append (Order.destination order) container containers
  end.

(** Nothing in [prepare_containers] can raise: [next] has a default, the
    mapping is a [defaultdict], and the rest is integer arithmetic,
    comparisons and [list.append]. *)
Definition prepare_containers (orders : list Order.t) (self : t)
  : t * containers_dict :=
  (self, fold_left (place_order self) orders []).


End ContainerAggregator.


(** A property of (destination, container) that holds of every container
    of a mapping, with the destination the container is stored under. *)
Definition every_container (P : option string -> Container.t -> Prop)
  (containers : containers_dict) : Prop :=
  Forall (fun entry => Forall (P (fst entry)) (snd entry)) containers.

(** The elements a list has at its second, fourth, sixth, ... place. *)
Fixpoint every_second {A : Type} (l : list A) : list A :=
  match l with
  | _ :: y :: l' => y :: every_second l'
  | _ => []
  end.

(** All the orders a mapping holds: entry by entry, container by
    container, in the order of each container's list. *)
Definition orders_of (containers : containers_dict) : list Order.t :=
  flat_map (fun entry => flat_map Container.orders (snd entry)) containers.

(** The destinations of a list, each once, in the order in which they
    first occur. *)
Definition first_seen (destinations : list (option string))
  : list (option string) :=
  fold_left (fun seen d =>
               if existsb (fun k => destination_eqb k d) seen then seen
               else seen ++ [d])
            destinations [].

(** Sum of a list of integers, by recursion on the list. *)
Fixpoint total (l : list Z) : Z :=
  match l with
  | [] => 0
  | x :: l' => x + total l'
  end.

(** * OOP/poker.py and OOP/zoo.py: shared builtins *)

(** [sorted(iterable, key=...)] compares with [<] only and is stable:
    elements that do not compare as smaller one way or the other keep the
    order they have in the input.  On a total order there is one such
    arrangement, whatever the algorithm; it is computed here by insertion,
    each element going before the first element of the sorted rest that is
    not smaller than it. *)
Section Sorted.

Variable A : Type.
Variable ltb : A -> A -> bool.

Fixpoint insert_sorted (x : A) (l : list A) : list A :=
  match l with
  | [] => [x]
  | y :: l' => if ltb y x then y :: insert_sorted x l' else x :: y :: l'
  end.

Fixpoint sorted (l : list A) : list A :=
  match l with
  | [] => []
  | x :: l' => insert_sorted x (sorted l')
  end.

End Sorted.

Arguments insert_sorted {A} ltb x l.
Arguments sorted {A} ltb l.

(** [list.index(x)] on a list of strings: the first position of [x];
    [None] stands for the [ValueError] raised when there is none. *)
Fixpoint list_index (x : string) (l : list string) : option nat :=
  match l with
  | [] => None
  | y :: l' =>
      if String.eqb y x then Some O else option_map S (list_index x l')
  end.

(** [a == b] on lists of integers. *)
Fixpoint list_eqb (a b : list nat) : bool :=
  match a, b with
  | [], [] => true
  | x :: a', y :: b' => Nat.eqb x y && list_eqb a' b'
  | _, _ => false
  end.

(** * OOP/poker.py *)

Module poker.

Inductive exn : Type :=
| ValueError
| IndexError.

Inductive outcome (A : Type) : Type :=
| Return (a : A)
| Raise (e : exn).

Arguments Return {A} a.
Arguments Raise {A} e.

Definition bind {A B : Type} (m : outcome A) (f : A -> outcome B) : outcome B :=
  match m with
  | Return a => f a
  | Raise e => Raise e
  end.

(** ** class Card *)

Module Card.

(** [Card] defines no [__eq__]: a card equals only itself, however many
    cards have its value and suit.  [ident] stands for the identity of the
    object. *)
Record t : Type := mk {
  ident : nat;
  value : string;
  suit : string
}.

Definition eqb (a b : t) : bool := Nat.eqb (ident a) (ident b).

Definition repr (self : t) : string :=
  (value self ++ " of " ++ suit self)%string.

End Card.

(** [cards.remove(card)] where [card] is known to be in the list. *)
Fixpoint remove_card_from (card : Card.t) (cards : list Card.t) : list Card.t :=
  match cards with
  | [] => []
  | c :: rest =>
      if Card.eqb c card then rest else c :: remove_card_from card rest
  end.

(** ** class Hand *)

Module Hand.

Definition suits : list string :=
  ["diamonds"; "clubs"; "hearts"; "spades"]%string.

Definition values : list string :=
  ["2"; "3"; "4"; "5"; "6"; "7"; "8"; "9"; "10"; "J"; "Q"; "K"; "A"]%string.

Record t : Type := mk {
  cards : list Card.t
}.

Definition init : t := mk [].

Definition can_add_card (card : Card.t) (self : t) : bool :=
  existsb (fun v => String.eqb v (Card.value card)) values
  && existsb (fun s => String.eqb s (Card.suit card)) suits
  && (List.length (cards self) <? 5)%nat
  && negb (existsb (fun c => Card.eqb c card) (cards self)).

Definition add_card (card : Card.t) (self : t) : t * outcome unit :=
  if can_add_card card self
  then (mk (cards self ++ [card]), Return tt)
  else (self, Raise ValueError).

Definition can_remove_card (card : Card.t) (self : t) : bool :=
  existsb (fun c => Card.eqb c card) (cards self).

Definition remove_card (card : Card.t) (self : t) : t * outcome unit :=
  if can_remove_card card self
  then (mk (remove_card_from card (cards self)), Return tt)
  else (self, Raise ValueError).

Definition get_cards (self : t) : list Card.t := cards self.

(** [[self.values.index(card.value) for card in self.cards]]: the first
    card whose value is not in [values] raises [ValueError]. *)
Fixpoint value_indices (cards : list Card.t) : outcome (list nat) :=
  match cards with
  | [] => Return []
  | card :: rest =>
      match list_index (Card.value card) values with
      | None => Raise ValueError
      | Some i => bind (value_indices rest) (fun l => Return (i :: l))
      end
  end.

(** [sorted_values[-1]] raises [IndexError] on the empty list. *)
Definition is_straight (self : t) : outcome bool :=
  bind (value_indices (cards self)) (fun indices =>
    let sorted_values := sorted Nat.ltb indices in
    match sorted_values with
    | [] => Raise IndexError
    | first :: _ =>
        Return ((Z.of_nat (last sorted_values O) - Z.of_nat first =? 4)
                && (List.length (nodup Nat.eq_dec sorted_values) =? 5)%nat)
    end).

Definition is_flush (self : t) : bool :=
  (List.length (nodup string_dec (map Card.suit (cards self))) =? 1)%nat.

Definition is_straight_flush (self : t) : outcome bool :=
  bind (is_straight self) (fun straight =>
    Return (if straight then is_flush self else false)).

(** [[self.values.count(card.value) for card in self.cards]] *)
Definition values_count (self : t) : list nat :=
  map (fun card => count_occ string_dec values (Card.value card)) (cards self).

Definition is_full_house (self : t) : bool :=
  list_eqb (sorted Nat.ltb (values_count self)) [2; 3]%nat.

Definition is_four_of_a_kind (self : t) : bool :=
  existsb (Nat.eqb 4) (values_count self).

Definition is_three_of_a_kind (self : t) : bool :=
  existsb (Nat.eqb 3) (values_count self).

Definition is_pair (self : t) : bool :=
  existsb (Nat.eqb 2) (values_count self).

Definition get_hand_type (self : t) : outcome (option string) :=
  if (List.length (cards self) <? 5)%nat then Return None
  else
    bind (is_straight_flush self) (fun straight_flush =>
      if straight_flush then Return (Some "straight flush"%string)
      else if is_flush self then Return (Some "flush"%string)
      else
        bind (is_straight self) (fun straight =>
          if straight then Return (Some "straight"%string)
          else if is_full_house self then Return (Some "full house"%string)
          else if is_four_of_a_kind self
               then Return (Some "four of a kind"%string)
          else if is_three_of_a_kind self
               then Return (Some "three of a kind"%string)
          else if is_pair self then Return (Some "pair"%string)
          else Return (Some "high card"%string))).

(** [', '.join(map(str, self.cards))]: a card has no [__str__], so [str]
    is its [__repr__]. *)
Definition repr (self : t) : outcome string :=
  let card_list := String.concat ", " (map Card.repr (cards self)) in
  bind (get_hand_type self) (fun hand_type =>
    match hand_type with
    | Some _ =>
        bind (get_hand_type self) (fun hand_type' =>
          match hand_type' with
          | Some name =>
              Return ("I got a " ++ name ++ " with cards: " ++ card_list)%string
          | None =>
              Return ("I got a None with cards: " ++ card_list)%string
          end)
    | None => Return ("I'm holding " ++ card_list)%string
    end).

(** A call of one of the two methods that change the hand. *)
Inductive call : Type :=
| AddCard (card : Card.t)
| RemoveCard (card : Card.t).

(** The hand after a sequence of calls; a call that raises leaves the hand
    as it was and the sequence goes on. *)
Definition after (calls : list call) (self : t) : t :=
  fold_left (fun hand c =>
               match c with
               | AddCard card => fst (add_card card hand)
               | RemoveCard card => fst (remove_card card hand)
               end)
            calls self.

End Hand.

End poker.

(** * OOP/zoo.py *)

Module zoo.

(** ** class Animal *)

Module Animal.

(** [Animal] defines no [__eq__]: an animal equals only itself.  [ident]
    stands for the identity of the object. *)
Record t : Type := mk {
  ident : nat;
  name : string;
  species : string;
  age : Z
}.

Definition eqb (a b : t) : bool := Nat.eqb (ident a) (ident b).

End Animal.

(** [animals.remove(animal)] where [animal] is known to be in the list. *)
Fixpoint remove_animal_from (animal : Animal.t) (animals : list Animal.t)
  : list Animal.t :=
  match animals with
  | [] => []
  | a :: rest =>
      if Animal.eqb a animal then rest else a :: remove_animal_from animal rest
  end.

(** ** class Zoo *)

Module Zoo.

Record t : Type := mk {
  name : string;
  max_number_of_animals : Z;
  animals : list Animal.t
}.

Definition init (name : string) (max_number_of_animals : Z) : t :=
  mk name max_number_of_animals [].

Definition can_add_animal (animal : Animal.t) (self : t) : bool :=
  (Z.of_nat (List.length (animals self)) <? max_number_of_animals self)
  && negb (existsb (fun a => Animal.eqb a animal) (animals self))
  && negb (existsb (fun existing_animal =>
                      String.eqb (Animal.name existing_animal) (Animal.name animal)
                      && String.eqb (Animal.species existing_animal)
                                    (Animal.species animal))
                   (animals self)).

(** A method that prints returns, with the zoo after the call, the lines
    it printed. *)
Definition add_animal (animal : Animal.t) (self : t) : t * list string :=
  if can_add_animal animal self
  then (mk (name self) (max_number_of_animals self) (animals self ++ [animal]),
        [(Animal.name animal ++ " (" ++ Animal.species animal
          ++ ") has been added to " ++ name self ++ ".")%string])
  else (self, []).

Definition can_remove_animal (animal : Animal.t) (self : t) : bool :=
  existsb (fun a => Animal.eqb a animal) (animals self).

Definition remove_animal (animal : Animal.t) (self : t) : t * list string :=
  if can_remove_animal animal self
  then (mk (name self) (max_number_of_animals self)
           (remove_animal_from animal (animals self)),
        [(Animal.name animal ++ " (" ++ Animal.species animal
          ++ ") has been removed from " ++ name self ++ ".")%string])
  else (self, []).

Definition get_all_animals (self : t) : list Animal.t := animals self.

Definition get_animals_by_age (self : t) : list Animal.t :=
  sorted (fun a b => Animal.age a <? Animal.age b) (animals self).

(** Strings are compared as [str] compares: character by character, a
    proper prefix first. *)
Definition get_animals_sorted_alphabetically (self : t) : list Animal.t :=
  sorted (fun a b => String.ltb (Animal.name a) (Animal.name b)) (animals self).

(** A call of one of the two methods that change the zoo. *)
Inductive call : Type :=
| AddAnimal (animal : Animal.t)
| RemoveAnimal (animal : Animal.t).

(** The zoo after a sequence of calls. *)
Definition after (calls : list call) (self : t) : t :=
  fold_left (fun z c =>
               match c with
               | AddAnimal animal => fst (add_animal animal z)
               | RemoveAnimal animal => fst (remove_animal animal z)
               end)
            calls self.

End Zoo.

End zoo.

(** * Properties *)

(** ** Builtins *)

Lemma fold_left_add_acc (l : list Z) (a : Z) :
  fold_left Z.add l a = a + total l.
Proof.
  revert a; induction l as [|x l IH]; intros a; simpl.
  - lia.
  - rewrite IH; lia.
Qed.

Lemma sum_total (l : list Z) : sum l = total l.
Proof. unfold sum; rewrite fold_left_add_acc; lia. Qed.

Lemma total_app (l1 l2 : list Z) : total (l1 ++ l2) = total l1 + total l2.
Proof. induction l1 as [|x l1 IH]; simpl; lia. Qed.

Lemma OrderItem_eqb_eq (a b : OrderItem.t) :
  OrderItem.eqb a b = true <-> a = b.
Proof.
  destruct a as [c1 n1 q1 v1], b as [c2 n2 q2 v2]; unfold OrderItem.eqb; simpl.
  rewrite !andb_true_iff, !String.eqb_eq, !Z.eqb_eq.
  split.
  - intros [[[-> ->] ->] ->]; reflexivity.
  - intros H; inversion H; auto.
Qed.

Lemma OrderItem_eqb_refl (a : OrderItem.t) : OrderItem.eqb a a = true.
Proof. apply OrderItem_eqb_eq; reflexivity. Qed.

Lemma OrderItem_eqb_neq (a b : OrderItem.t) :
  OrderItem.eqb a b = false <-> a <> b.
Proof.
  rewrite <- OrderItem_eqb_eq.
  destruct (OrderItem.eqb a b); split; congruence.
Qed.

Lemma destination_eqb_eq (a b : option string) :
  destination_eqb a b = true <-> a = b.
Proof.
  destruct a as [x|], b as [y|]; simpl; try (split; congruence).
  rewrite String.eqb_eq; split; congruence.
Qed.

Lemma destination_eqb_refl (a : option string) : destination_eqb a a = true.
Proof. apply destination_eqb_eq; reflexivity. Qed.

Lemma destination_eqb_neq (a b : option string) :
  destination_eqb a b = false <-> a <> b.
Proof.
  rewrite <- destination_eqb_eq.
  destruct (destination_eqb a b); split; congruence.
Qed.

(** ** [list.remove] *)

Lemma list_remove_head (x : OrderItem.t) (l : list OrderItem.t) :
  list_remove x (x :: l) = Some l.
Proof. simpl; rewrite OrderItem_eqb_refl; reflexivity. Qed.

Lemma list_remove_In (x : OrderItem.t) (l : list OrderItem.t) :
  In x l -> exists l', list_remove x l = Some l' /\ Permutation l (x :: l').
Proof.
  induction l as [|y l IH]; intros Hin; [destruct Hin|].
  simpl; destruct (OrderItem.eqb y x) eqn:E.
  - apply OrderItem_eqb_eq in E; subst y.
    exists l; split; [reflexivity | apply Permutation_refl].
  - apply OrderItem_eqb_neq in E.
    destruct Hin as [Heq | Hin]; [contradiction|].
    destruct (IH Hin) as (l' & Hrm & Hperm).
    exists (y :: l'); rewrite Hrm; split; [reflexivity|].
    eapply perm_trans; [apply perm_skip, Hperm | apply perm_swap].
Qed.

Lemma list_remove_not_In (x : OrderItem.t) (l : list OrderItem.t) :
  ~ In x l -> list_remove x l = None.
Proof.
  induction l as [|y l IH]; intros Hnin; simpl; [reflexivity|].
  destruct (OrderItem.eqb y x) eqn:E.
  - apply OrderItem_eqb_eq in E; subst y; exfalso; apply Hnin; left; reflexivity.
  - rewrite IH; [reflexivity | intros Hin; apply Hnin; right; exact Hin].
Qed.

(** ** [OrderAggregator] *)

Section Pool.

Import OrderAggregator.


(** An element of the pool that equals none of the items to remove stays
    where it is, whether the removal succeeds or raises. *)
Lemma remove_items_skip (y : OrderItem.t) (items l : list OrderItem.t) :
  Forall (fun item => y <> item) items ->
  remove_items items (mk (y :: l)) =
  (mk (y :: order_items (fst (remove_items items (mk l)))),
   snd (remove_items items (mk l))).
Proof.
  revert l; induction items as [|item rest IH]; intros l Hne; simpl.
  - reflexivity.
  - inversion Hne as [|? ? Hy Hrest]; subst.
    apply OrderItem_eqb_neq in Hy; rewrite Hy.
    destruct (list_remove item l) as [l'|]; simpl.
    + apply IH; exact Hrest.
    + reflexivity.
Qed.

(** Removing, one by one, the items a predicate selects from the pool never
    raises and leaves the items the predicate rejects, in their order. *)
Lemma remove_items_filter (f : OrderItem.t -> bool) (l : list OrderItem.t) :
  remove_items (filter f l) (mk l) =
  (mk (filter (fun item => negb (f item)) l), Return tt).
Proof.
  induction l as [|y l IH]; simpl; [reflexivity|].
  destruct (f y) eqn:Hy; simpl.
  - rewrite OrderItem_eqb_refl; exact IH.
  - rewrite remove_items_skip, IH; [reflexivity|].
    apply Forall_forall; intros item Hin Heq; subst item.
    apply filter_In in Hin; destruct Hin as [_ Hf]; congruence.
Qed.

Variable customer : string.

Lemma aggregate_order_fits (max_items_quantity max_volume : Z) (self : t) :
  let for_customer item := String.eqb (OrderItem.customer item) customer in
  let items := filter for_customer (order_items self) in
  total (map OrderItem.quantity items) <= max_items_quantity ->
  total (map OrderItem.total_volume items) <= max_volume ->
  aggregate_order customer max_items_quantity max_volume self =
  (mk (filter (fun item => negb (for_customer item)) (order_items self)),
   Return (Some (Order.mk items None))).
Proof.
  intros for_customer items Hq Hv.
  destruct self as [pool]; unfold aggregate_order; simpl in *.
  fold for_customer; fold items.
  rewrite !sum_total.
  apply Z.leb_le in Hq, Hv; rewrite Hq, Hv; simpl.
  unfold items; rewrite remove_items_filter; reflexivity.
Qed.

Lemma aggregate_order_exceeds (max_items_quantity max_volume : Z) (self : t) :
  let for_customer item := String.eqb (OrderItem.customer item) customer in
  let items := filter for_customer (order_items self) in
  max_items_quantity < total (map OrderItem.quantity items)
  \/ max_volume < total (map OrderItem.total_volume items) ->
  aggregate_order customer max_items_quantity max_volume self =
  (self, Return None).
Proof.
  intros for_customer items H; unfold aggregate_order.
  fold for_customer; fold items.
  rewrite !sum_total.
  destruct H as [H | H]; apply Z.leb_gt in H; rewrite H; simpl.
  - reflexivity.
  - rewrite andb_false_r; reflexivity.
Qed.

(** C1: when the pending items of a customer are within both limits,
    [aggregate_order] returns an [Order] holding exactly those items (all the
    items of the pool whose customer is the given one, in pool order); after
    the call the pool holds none of them, and it holds every other item: it
    is the old pool without the items of that customer. *)
Theorem aggregate_order_within_limits
  (max_items_quantity max_volume : Z) (self : t) :
  let items :=
    filter (fun item => String.eqb (OrderItem.customer item) customer)
           (order_items self) in
  total (map OrderItem.quantity items) <= max_items_quantity ->
  total (map OrderItem.total_volume items) <= max_volume ->
  exists (order : Order.t) (self' : t),
    aggregate_order customer max_items_quantity max_volume self =
    (self', Return (Some order))
    /\ Order.order_items order = items
    /\ (forall item, In item (Order.order_items order) <->
                     In item (order_items self)
                     /\ OrderItem.customer item = customer)
    /\ (forall item, In item (Order.order_items order) ->
                     ~ In item (order_items self'))
    /\ (forall item, In item (order_items self) ->
                     ~ In item (Order.order_items order) ->
                     In item (order_items self'))
    /\ order_items self' =
       filter (fun item =>
                 negb (String.eqb (OrderItem.customer item) customer))
              (order_items self).
Proof.
  intros items Hq Hv.
  eexists; eexists; split; [apply aggregate_order_fits; assumption|].
  simpl; fold items.
  assert (Hitems : forall item, In item items <->
            In item (order_items self) /\ OrderItem.customer item = customer).
  { intros item; unfold items; rewrite filter_In, String.eqb_eq; tauto. }
  split; [reflexivity|].
  split; [exact Hitems|].
  split; [|split]; [| |reflexivity].
  - intros item Hin Hpool; apply Hitems in Hin; destruct Hin as [_ Hc].
    apply filter_In in Hpool; destruct Hpool as [_ Hn].
    apply String.eqb_eq in Hc; rewrite Hc in Hn; discriminate.
  - intros item Hin Hnot; apply filter_In; split; [exact Hin|].
    destruct (String.eqb (OrderItem.customer item) customer) eqn:E;
      [|reflexivity].
    exfalso; apply Hnot, Hitems; split; [exact Hin|].
    apply String.eqb_eq; exact E.
Qed.

(** C2: when the pending items of a customer exceed the quantity limit or
    the volume limit, [aggregate_order] returns [None] and the pool after
    the call is the pool before the call. *)
Theorem aggregate_order_over_limit
  (max_items_quantity max_volume : Z) (self : t) :
  let items :=
    filter (fun item => String.eqb (OrderItem.customer item) customer)
           (order_items self) in
  max_items_quantity < total (map OrderItem.quantity items)
  \/ max_volume < total (map OrderItem.total_volume items) ->
  aggregate_order customer max_items_quantity max_volume self =
  (self, Return None).
Proof. exact (aggregate_order_exceeds max_items_quantity max_volume self). Qed.

End Pool.

Lemma aggregate_order_within_limits_witness :
  let pen := OrderItem.mk "X"%string "pen"%string 2 3 in
  let ink := OrderItem.mk "Y"%string "ink"%string 7 9 in
  let cup := OrderItem.mk "X"%string "cup"%string 1 4 in
  let self := OrderAggregator.mk [pen; ink; cup] in
  exists (order : Order.t) (self' : OrderAggregator.t),
    OrderAggregator.aggregate_order "X"%string 5 10 self =
    (self', Return (Some order))
    /\ Order.order_items order = [pen; cup]
    /\ OrderAggregator.order_items self' = [ink].
Proof.
  intros pen ink cup self.
  destruct (aggregate_order_within_limits "X"%string 5 10 self)
    as (order & self' & Hcall & Hitems & _ & _ & _ & Hpool);
    [simpl; lia | simpl; lia |].
  exists order, self'; split; [exact Hcall|]; split.
  - exact Hitems.
  - exact Hpool.
Defined.

Lemma aggregate_order_over_limit_witness :
  let pen := OrderItem.mk "X"%string "pen"%string 2 3 in
  let ink := OrderItem.mk "Y"%string "ink"%string 7 9 in
  let cup := OrderItem.mk "X"%string "cup"%string 1 4 in
  let self := OrderAggregator.mk [pen; ink; cup] in
  OrderAggregator.aggregate_order "X"%string 5 9 self = (self, Return None).
Proof.
  intros pen ink cup self.
  apply (aggregate_order_over_limit "X"%string 5 9 self).
  right; simpl; lia.
Defined.

(** C7, as the code has it: from an empty pool, after [add_item] of
    (customer "X", quantity 2, volume 3) and of (customer "X", quantity 1,
    volume 4), [aggregate_order("X", 5, 10)] returns an [Order] with both
    items and empties the pool; the same call made again does not return
    [None]: it returns an [Order] with no items. *)
Theorem aggregate_order_twice (name1 name2 : string) :
  let item1 := OrderItem.mk "X"%string name1 2 3 in
  let item2 := OrderItem.mk "X"%string name2 1 4 in
  let self :=
    fst (OrderAggregator.add_item item2
           (fst (OrderAggregator.add_item item1 OrderAggregator.init))) in
  exists self' : OrderAggregator.t,
    OrderAggregator.aggregate_order "X"%string 5 10 self =
    (self', Return (Some (Order.mk [item1; item2] None)))
    /\ OrderAggregator.order_items self' = []
    /\ OrderAggregator.aggregate_order "X"%string 5 10 self' =
       (self', Return (Some (Order.mk [] None))).
Proof.
  intros item1 item2 self.
  exists (OrderAggregator.mk []); split; [|split].
  - pose proof (aggregate_order_fits "X"%string 5 10 self) as H.
    simpl in H; apply H; lia.
  - reflexivity.
  - reflexivity.
Qed.

(** C7, as the claim has it, fails: the second call returns an [Order], not
    [None]. *)
Lemma second_aggregate_order_not_absent :
  let item1 := OrderItem.mk "X"%string "a"%string 2 3 in
  let item2 := OrderItem.mk "X"%string "b"%string 1 4 in
  let self :=
    fst (OrderAggregator.add_item item2
           (fst (OrderAggregator.add_item item1 OrderAggregator.init))) in
  ~ (exists (order : Order.t) (self' self'' : OrderAggregator.t),
       OrderAggregator.aggregate_order "X"%string 5 10 self =
       (self', Return (Some order))
       /\ Order.order_items order = [item1; item2]
       /\ OrderAggregator.aggregate_order "X"%string 5 10 self' =
          (self'', Return None)).
Proof.
  intros item1 item2 self (order & self' & self'' & Hfirst & _ & Hsecond).
  vm_compute in Hfirst.
  injection Hfirst as Hself _; subst self'.
  vm_compute in Hsecond.
  discriminate Hsecond.
Qed.


(** The round trip keeps the content of the pool, not the positions: a
    removed item comes back at the end. *)
Example remove_items_add_items_moves_to_end :
  let a := OrderItem.mk "X"%string "a"%string 1 1 in
  let b := OrderItem.mk "Y"%string "b"%string 2 5 in
  let self := OrderAggregator.mk [a; b] in
  OrderAggregator.remove_items [a] self = (OrderAggregator.mk [b], Return tt)
  /\ OrderAggregator.add_items [a] (OrderAggregator.mk [b]) =
     OrderAggregator.mk [b; a].
Proof. split; reflexivity. Qed.



(** ** [Container] *)

Lemma volume_left_append (c : Container.t) (order : Order.t) :
  Container.volume_left (Container.append c order) =
  Container.volume_left c - Order.total_volume order.
Proof.
  unfold Container.volume_left, Container.append; simpl.
  rewrite !sum_total, map_app, total_app; simpl; lia.
Qed.

Lemma volume_left_new (v : Z) (order : Order.t) :
  Container.volume_left (Container.append (Container.mk v []) order) =
  v - Order.total_volume order.
Proof.
  rewrite volume_left_append; unfold Container.volume_left, sum; simpl; lia.
Qed.

(** ** [ContainerAggregator]: what one placement preserves *)

Section Placement.

Import ContainerAggregator.

Variable P : option string -> Container.t -> Prop.
Variable self : t.
Variable order : Order.t.

(** The property survives the append to a qualifying container, and holds
    of a new container that got the order. *)
Hypothesis P_append :
  forall destination c,
    P destination c -> qualifies order destination c = true ->
    P destination (Container.append c order).
Hypothesis P_new :
  P (Order.destination order)
    (Container.append (Container.mk (container_volume self) []) order).

Lemma append_to_first_every (destination : option string)
  (container_list container_list' : list Container.t) :
  Forall (P destination) container_list ->
  append_to_first order destination container_list = Some container_list' ->
  Forall (P destination) container_list'.
Proof.
  revert container_list'.
  induction container_list as [|c rest IH]; intros cl' Hall Hplace; simpl in Hplace.
  - discriminate.
  - inversion Hall as [|? ? Hc Hrest]; subst.
    destruct (qualifies order destination c) eqn:Hq.
    + injection Hplace as <-; constructor; auto.
    + destruct (append_to_first order destination rest) as [rest'|];
        simpl in Hplace; [|discriminate].
      injection Hplace as <-; constructor; auto.
Qed.

Lemma place_in_existing_every (containers containers' : containers_dict) :
  every_container P containers ->
  place_in_existing order containers = Some containers' ->
  every_container P containers'.
Proof.
  unfold every_container; revert containers'.
  induction containers as [|[destination container_list] rest IH];
    intros m' Hall Hplace; simpl in Hplace.
  - discriminate.
  - inversion Hall as [|? ? Hentry Hrest]; subst; simpl in Hentry.
    destruct (append_to_first order destination container_list) as [cl'|] eqn:Hfirst.
    + injection Hplace as <-; constructor; [|exact Hrest].
      simpl; eapply append_to_first_every; eassumption.
    + destruct (place_in_existing order rest) as [rest'|];
        simpl in Hplace; [|discriminate].
      injection Hplace as <-; constructor; auto.
Qed.

Lemma dict_append_every (destination : option string) (c : Container.t)
  (containers : containers_dict) :
  every_container P containers -> P destination c ->
  every_container P (dict_append destination c containers).
Proof.
  unfold every_container; intros Hall Hc.
  induction containers as [|[k container_list] rest IH]; simpl.
  - repeat constructor; exact Hc.
  - inversion Hall as [|? ? Hentry Hrest]; subst; simpl in Hentry.
    destruct (destination_eqb k destination) eqn:Hk.
    + apply destination_eqb_eq in Hk; subst k.
      constructor; [|exact Hrest].
      simpl; apply Forall_app; split; [exact Hentry | repeat constructor; exact Hc].
    + constructor; auto.
Qed.

Lemma place_order_every (containers : containers_dict) :
  every_container P containers ->
  every_container P (place_order self containers order).
Proof.
  intros Hall; unfold place_order.
  destruct (place_in_existing order containers) as [m'|] eqn:Hplace.
  - eapply place_in_existing_every; eassumption.
  - apply dict_append_every; assumption.
Qed.

End Placement.

(** A property that every placement of a batch preserves holds of every
    container of the mapping [prepare_containers] returns. *)
Lemma prepare_containers_every (P : option string -> Container.t -> Prop)
  (self : ContainerAggregator.t) (orders : list Order.t) :
  Forall (fun order =>
            (forall destination c,
               P destination c ->
               ContainerAggregator.qualifies order destination c = true ->
               P destination (Container.append c order))
            /\ P (Order.destination order)
                 (Container.append
                    (Container.mk (ContainerAggregator.container_volume self) [])
                    order))
         orders ->
  every_container P (snd (ContainerAggregator.prepare_containers orders self)).
Proof.
  unfold ContainerAggregator.prepare_containers; simpl.
  assert (Hempty : every_container P []) by constructor.
  revert Hempty; generalize (@nil (option string * list Container.t)).
  induction orders as [|order rest IH]; intros m Hm Hall; simpl.
  - exact Hm.
  - inversion Hall as [|? ? [Happend Hnew] Hrest]; subst.
    apply IH; [|exact Hrest].
    apply place_order_every; assumption.
Qed.

Lemma every_container_In (P : option string -> Container.t -> Prop)
  (containers : containers_dict) :
  every_container P containers <->
  (forall destination container_list c,
     In (destination, container_list) containers -> In c container_list ->
     P destination c).
Proof.
  unfold every_container; rewrite Forall_forall; split.
  - intros H destination cl c Hentry Hc.
    specialize (H _ Hentry); simpl in H.
    rewrite Forall_forall in H; auto.
  - intros H [destination cl] Hentry; simpl.
    rewrite Forall_forall; intros c Hc; eauto.
Qed.

(** ** [ContainerAggregator]: counting the orders *)

Section Counting.

Import ContainerAggregator.

Let held (container_list : list Container.t) : nat :=
  list_sum (map (fun c => List.length (Container.orders c)) container_list).


Lemma append_to_first_held (order : Order.t) (destination : option string)
  (container_list container_list' : list Container.t) :
  append_to_first order destination container_list = Some container_list' ->
  held container_list' = S (held container_list).
Proof.
  revert container_list'.
  induction container_list as [|c rest IH]; intros cl' Hplace; simpl in Hplace.
  - discriminate.
  - destruct (qualifies order destination c).
    + injection Hplace as <-; unfold held; simpl.
      rewrite length_app; simpl; lia.
    + destruct (append_to_first order destination rest) as [rest'|];
        simpl in Hplace; [|discriminate].
      injection Hplace as <-.
      specialize (IH rest' eq_refl); unfold held in *; simpl; lia.
Qed.






End Counting.


(** C9: [prepare_containers] leaves [not_used_orders] as it was: whatever
    the instance and the input orders, the list after the call is the list
    before the call. *)
Theorem prepare_containers_not_used_orders
  (self : ContainerAggregator.t) (orders : list Order.t) :
  ContainerAggregator.not_used_orders
    (fst (ContainerAggregator.prepare_containers orders self)) =
  ContainerAggregator.not_used_orders self.
Proof. reflexivity. Qed.

(** ** [ContainerAggregator]: the packing invariants *)

(** C5: the volume left in a container of capacity [C] is [C] minus the
    sum of the total volumes of the orders it holds (each the sum of
    quantity times unit volume over its items); and after a
    [prepare_containers] call in which the total volume of every input
    order is at most the configured container volume, every container of
    the returned mapping has a volume left of at least 0. *)
Theorem volume_left_never_negative
  (self : ContainerAggregator.t) (orders : list Order.t) :
  (forall c : Container.t,
     Container.volume_left c =
     Container.volume c
     - total (map (fun order =>
                     total (map (fun item =>
                                   OrderItem.quantity item
                                   * OrderItem.one_item_volume item)
                                (Order.order_items order)))
                  (Container.orders c)))
  /\ (Forall (fun order =>
                Order.total_volume order
                <= ContainerAggregator.container_volume self) orders ->
      forall destination container_list c,
        In (destination, container_list)
           (snd (ContainerAggregator.prepare_containers orders self)) ->
        In c container_list ->
        0 <= Container.volume_left c).
Proof.
  split.
  - intros c; unfold Container.volume_left; rewrite sum_total.
    f_equal; f_equal; apply map_ext; intros order.
    unfold Order.total_volume; rewrite sum_total; reflexivity.
  - intros Hbound.
    apply (every_container_In (fun _ c => 0 <= Container.volume_left c)).
    apply prepare_containers_every.
    eapply Forall_impl; [|exact Hbound].
    intros order Hle; simpl in Hle; split.
    + intros destination c Hc Hq; rewrite volume_left_append.
      unfold ContainerAggregator.qualifies in Hq.
      apply andb_true_iff in Hq; destruct Hq as [Hfit _].
      apply Z.leb_le in Hfit; lia.
    + rewrite volume_left_new; lia.
Qed.

Lemma volume_left_never_negative_witness :
  let o1 := Order.mk [OrderItem.mk "X"%string "pen"%string 2 3] (Some "A"%string) in
  let o2 := Order.mk [OrderItem.mk "Y"%string "ink"%string 1 6] (Some "A"%string) in
  let self := ContainerAggregator.init 10 in
  let c1 := Container.mk 10 [o1] in
  let c2 := Container.mk 10 [o2] in
  snd (ContainerAggregator.prepare_containers [o1; o2] self) =
  [(Some "A"%string, [c1; c2])]
  /\ 0 <= Container.volume_left c2.
Proof.
  intros o1 o2 self c1 c2; split; [reflexivity|].
  apply (proj2 (volume_left_never_negative self [o1; o2]))
    with (destination := Some "A"%string) (container_list := [c1; c2]).
  - repeat constructor; vm_compute; discriminate.
  - left; reflexivity.
  - right; left; reflexivity.
Defined.

(** C10: in the mapping [prepare_containers] returns, every order held by a
    container of the list stored under a destination has that
    destination. *)
Theorem containers_hold_their_destination
  (self : ContainerAggregator.t) (orders : list Order.t)
  (destination : option string) (container_list : list Container.t)
  (c : Container.t) (order : Order.t) :
  In (destination, container_list)
     (snd (ContainerAggregator.prepare_containers orders self)) ->
  In c container_list ->
  In order (Container.orders c) ->
  Order.destination order = destination.
Proof.
  intros Hentry Hc Horder.
  assert (Hall : every_container
            (fun d c' => Forall (fun o => Order.destination o = d)
                                (Container.orders c'))
            (snd (ContainerAggregator.prepare_containers orders self))).
  { apply prepare_containers_every.
    apply Forall_forall; intros o _; split.
    - intros d c' Hc' Hq; simpl.
      unfold ContainerAggregator.qualifies in Hq.
      apply andb_true_iff in Hq; destruct Hq as [_ Hd].
      apply destination_eqb_eq in Hd.
      apply Forall_app; split; [exact Hc' | repeat constructor; exact Hd].
    - simpl; repeat constructor. }
  rewrite every_container_In in Hall.
  specialize (Hall _ _ _ Hentry Hc); rewrite Forall_forall in Hall; auto.
Qed.

Lemma containers_hold_their_destination_witness :
  let o1 := Order.mk [OrderItem.mk "X"%string "pen"%string 2 3] (Some "A"%string) in
  let o2 := Order.mk [OrderItem.mk "Y"%string "ink"%string 1 6] None in
  let o3 := Order.mk [OrderItem.mk "Z"%string "cup"%string 1 4] (Some "A"%string) in
  let self := ContainerAggregator.init 10 in
  snd (ContainerAggregator.prepare_containers [o1; o2; o3] self) =
  [(Some "A"%string, [Container.mk 10 [o1; o3]]); (None, [Container.mk 10 [o2]])]
  /\ Order.destination o3 = Some "A"%string.
Proof.
  intros o1 o2 o3 self; split; [reflexivity|].
  apply (containers_hold_their_destination self [o1; o2; o3]
           (Some "A"%string) [Container.mk 10 [o1; o3]]
           (Container.mk 10 [o1; o3]) o3).
  - left; reflexivity.
  - left; reflexivity.
  - right; left; reflexivity.
Defined.

(** ** [ContainerAggregator]: where one order goes *)

Section Scan.

Import ContainerAggregator.

Variable order : Order.t.

Lemma qualifies_true (destination : option string) (c : Container.t) :
  qualifies order destination c = true <->
  Order.total_volume order <= Container.volume_left c
  /\ Order.destination order = destination.
Proof.
  unfold qualifies.
  rewrite andb_true_iff, Z.leb_le, destination_eqb_eq; tauto.
Qed.

Lemma qualifies_too_small (destination : option string) (c : Container.t) :
  Container.volume_left c < Order.total_volume order ->
  qualifies order destination c = false.
Proof.
  intros Hlt; unfold qualifies.
  apply Z.leb_gt in Hlt; rewrite Hlt; reflexivity.
Qed.

Lemma qualifies_elsewhere (destination : option string) (c : Container.t) :
  destination <> Order.destination order ->
  qualifies order destination c = false.
Proof.
  intros Hne; unfold qualifies.
  replace (destination_eqb (Order.destination order) destination) with false.
  - apply andb_false_r.
  - symmetry; apply destination_eqb_neq; congruence.
Qed.

Lemma append_to_first_none (destination : option string)
  (container_list : list Container.t) :
  Forall (fun c => qualifies order destination c = false) container_list ->
  append_to_first order destination container_list = None.
Proof.
  induction 1 as [|c rest Hc _ IH]; simpl.
  - reflexivity.
  - rewrite Hc, IH; reflexivity.
Qed.

Lemma append_to_first_first (destination : option string)
  (before : list Container.t) (c : Container.t) (after : list Container.t) :
  Forall (fun c' => qualifies order destination c' = false) before ->
  qualifies order destination c = true ->
  append_to_first order destination (before ++ c :: after) =
  Some (before ++ Container.append c order :: after).
Proof.
  intros Hbefore Hc.
  induction Hbefore as [|c' rest Hc' _ IH]; simpl.
  - rewrite Hc; reflexivity.
  - rewrite Hc', IH; reflexivity.
Qed.

Lemma place_in_existing_none (containers : containers_dict) :
  every_container (fun destination c => qualifies order destination c = false)
                  containers ->
  place_in_existing order containers = None.
Proof.
  unfold every_container.
  induction 1 as [|[destination container_list] rest Hentry _ IH]; simpl.
  - reflexivity.
  - simpl in Hentry; rewrite (append_to_first_none _ _ Hentry), IH; reflexivity.
Qed.

Lemma place_in_existing_at (entries_before : containers_dict)
  (destination : option string) (container_list container_list' : list Container.t)
  (entries_after : containers_dict) :
  Forall (fun entry => fst entry <> Order.destination order) entries_before ->
  append_to_first order destination container_list = Some container_list' ->
  place_in_existing order
    (entries_before ++ (destination, container_list) :: entries_after) =
  Some (entries_before ++ (destination, container_list') :: entries_after).
Proof.
  intros Hbefore Hfirst.
  induction Hbefore as [|[k cl] rest Hk _ IH]; simpl.
  - rewrite Hfirst; reflexivity.
  - simpl in Hk.
    rewrite append_to_first_none, IH; [reflexivity|].
    apply Forall_forall; intros c _; apply qualifies_elsewhere; exact Hk.
Qed.

Lemma place_in_existing_keys (containers containers' : containers_dict) :
  place_in_existing order containers = Some containers' ->
  map fst containers' = map fst containers.
Proof.
  revert containers'.
  induction containers as [|[destination container_list] rest IH];
    intros m' Hplace; simpl in Hplace.
  - discriminate.
  - destruct (append_to_first order destination container_list) as [cl'|].
    + injection Hplace as <-; reflexivity.
    + destruct (place_in_existing order rest) as [rest'|];
        simpl in Hplace; [|discriminate].
      injection Hplace as <-; simpl; rewrite (IH rest' eq_refl); reflexivity.
Qed.

End Scan.

Lemma dict_append_keys_In (destination : option string) (c : Container.t)
  (containers : containers_dict) (k : option string) :
  In k (map fst (dict_append destination c containers)) ->
  k = destination \/ In k (map fst containers).
Proof.
  induction containers as [|[k' cl] rest IH]; simpl.
  - intros [H | []]; left; congruence.
  - destruct (destination_eqb k' destination); simpl.
    + intros H; right; exact H.
    + intros [H | H]; [right; left; exact H|].
      destruct (IH H) as [Hd | Hin]; [left; exact Hd | right; right; exact Hin].
Qed.

Lemma dict_append_keys_NoDup (destination : option string) (c : Container.t)
  (containers : containers_dict) :
  NoDup (map fst containers) ->
  NoDup (map fst (dict_append destination c containers)).
Proof.
  induction containers as [|[k cl] rest IH]; simpl; intros Hnd.
  - repeat constructor; intros [].
  - inversion Hnd as [|? ? Hk Hrest]; subst.
    destruct (destination_eqb k destination) eqn:E; simpl.
    + constructor; assumption.
    + constructor; [|apply IH; exact Hrest].
      intros Hin; apply dict_append_keys_In in Hin.
      apply destination_eqb_neq in E.
      destruct Hin as [Hd | Hin]; [congruence | contradiction].
Qed.

(** The keys of the mapping are pairwise different, as those of a dict
    are. *)
Lemma prepare_containers_keys_NoDup (self : ContainerAggregator.t)
  (orders : list Order.t) :
  NoDup (map fst (snd (ContainerAggregator.prepare_containers orders self))).
Proof.
  unfold ContainerAggregator.prepare_containers; simpl.
  assert (Hempty : NoDup (map fst (@nil (option string * list Container.t))))
    by constructor.
  revert Hempty; generalize (@nil (option string * list Container.t)).
  induction orders as [|order rest IH]; intros m Hm; simpl.
  - exact Hm.
  - apply IH; unfold ContainerAggregator.place_order.
    destruct (ContainerAggregator.place_in_existing order m) as [m'|] eqn:Hplace.
    + rewrite (place_in_existing_keys _ _ _ Hplace); exact Hm.
    + apply dict_append_keys_NoDup; exact Hm.
Qed.

Lemma prepare_containers_snoc (self : ContainerAggregator.t)
  (orders : list Order.t) (order : Order.t) :
  snd (ContainerAggregator.prepare_containers (orders ++ [order]) self) =
  ContainerAggregator.place_order self
    (snd (ContainerAggregator.prepare_containers orders self)) order.
Proof.
  unfold ContainerAggregator.prepare_containers; simpl.
  rewrite fold_left_app; reflexivity.
Qed.

Lemma keys_before_differ (entries_before : containers_dict)
  (destination : option string) (container_list : list Container.t)
  (entries_after : containers_dict) :
  NoDup (map fst (entries_before ++ (destination, container_list) :: entries_after)) ->
  Forall (fun entry => fst entry <> destination) entries_before.
Proof.
  rewrite map_app; simpl; intros Hnd.
  apply NoDup_remove_2 in Hnd.
  apply Forall_forall; intros entry Hin Heq.
  apply Hnd, in_or_app; left.
  rewrite <- Heq; apply in_map; exact Hin.
Qed.

(** C6: [prepare_containers] places by first fit.  When the containers
    made so far for the destination of the next order are
    [before ++ c :: after] in creation order, no container of [before] has
    room for the order and [c] has, the order is appended to [c]; every
    other container, of this and of every other destination, stays as it
    is.  In particular with containers [[A; B]] for the destination, [A]
    with volume left 5 and [B] with volume left 10, an order of volume 5
    goes to [A] and [B] is unchanged. *)
Theorem prepare_containers_first_fit
  (self : ContainerAggregator.t) (placed : list Order.t) (order : Order.t)
  (entries_before entries_after : containers_dict) :
  (forall (before : list Container.t) (c : Container.t)
          (after : list Container.t),
     snd (ContainerAggregator.prepare_containers placed self) =
     entries_before
     ++ (Order.destination order, before ++ c :: after) :: entries_after ->
     Forall (fun c' => Container.volume_left c' < Order.total_volume order)
            before ->
     Order.total_volume order <= Container.volume_left c ->
     snd (ContainerAggregator.prepare_containers (placed ++ [order]) self) =
     entries_before
     ++ (Order.destination order, before ++ Container.append c order :: after)
     :: entries_after)
  /\ (forall A B : Container.t,
        snd (ContainerAggregator.prepare_containers placed self) =
        entries_before ++ (Order.destination order, [A; B]) :: entries_after ->
        Container.volume_left A = 5 ->
        Container.volume_left B = 10 ->
        Order.total_volume order = 5 ->
        snd (ContainerAggregator.prepare_containers (placed ++ [order]) self) =
        entries_before
        ++ (Order.destination order, [Container.append A order; B])
        :: entries_after).
Proof.
  assert (Hgeneral : forall before c after,
     snd (ContainerAggregator.prepare_containers placed self) =
     entries_before
     ++ (Order.destination order, before ++ c :: after) :: entries_after ->
     Forall (fun c' => Container.volume_left c' < Order.total_volume order)
            before ->
     Order.total_volume order <= Container.volume_left c ->
     snd (ContainerAggregator.prepare_containers (placed ++ [order]) self) =
     entries_before
     ++ (Order.destination order, before ++ Container.append c order :: after)
     :: entries_after).
  { intros before c after Hstate Hbefore Hc.
    pose proof (prepare_containers_keys_NoDup self placed) as Hkeys.
    rewrite prepare_containers_snoc, Hstate.
    rewrite Hstate in Hkeys; apply keys_before_differ in Hkeys.
    unfold ContainerAggregator.place_order.
    rewrite place_in_existing_at
      with (container_list' := before ++ Container.append c order :: after);
      [reflexivity | exact Hkeys |].
    apply append_to_first_first.
    - eapply Forall_impl; [|exact Hbefore].
      intros c' Hlt; apply qualifies_too_small; exact Hlt.
    - apply qualifies_true; split; [exact Hc | reflexivity]. }
  split; [exact Hgeneral|].
  intros A B Hstate HA HB Hvolume.
  apply (Hgeneral [] A [B]); [exact Hstate | constructor | lia].
Qed.

Lemma prepare_containers_first_fit_witness :
  let d := Some "A"%string in
  let o1 := Order.mk [OrderItem.mk "X"%string "pen"%string 11 1] d in
  let o2 := Order.mk [OrderItem.mk "X"%string "ink"%string 2 5] d in
  let o3 := Order.mk [OrderItem.mk "X"%string "cup"%string 1 4] d in
  let o4 := Order.mk [OrderItem.mk "X"%string "pad"%string 5 1] d in
  let self := ContainerAggregator.init 20 in
  let A := Container.mk 20 [o1; o3] in
  let B := Container.mk 20 [o2] in
  (Container.volume_left A = 5 /\ Container.volume_left B = 10)
  /\ snd (ContainerAggregator.prepare_containers [o1; o2; o3] self) =
     [(d, [A; B])]
  /\ snd (ContainerAggregator.prepare_containers [o1; o2; o3; o4] self) =
     [(d, [Container.mk 20 [o1; o3; o4]; B])].
Proof.
  intros d o1 o2 o3 o4 self A B.
  split; [split; reflexivity|].
  split; [reflexivity|].
  apply (proj2 (prepare_containers_first_fit self [o1; o2; o3] o4 [] []) A B);
    reflexivity.
Defined.

(** ** [ContainerAggregator]: orders larger than a container *)

Lemma every_container_impl (P Q : option string -> Container.t -> Prop)
  (containers : containers_dict) :
  (forall destination c, P destination c -> Q destination c) ->
  every_container P containers -> every_container Q containers.
Proof.
  intros HPQ; unfold every_container; intros Hall.
  eapply Forall_impl; [|exact Hall].
  intros [destination cl] Hentry; simpl in *.
  eapply Forall_impl; [|exact Hentry]; intros c; apply HPQ.
Qed.

(** While the orders of a destination have no negative volume, no container
    of that destination has more room than an empty one. *)
Lemma volume_left_at_most_capacity (self : ContainerAggregator.t)
  (orders : list Order.t) (destination : option string) :
  (forall o, In o orders -> Order.destination o = destination ->
             0 <= Order.total_volume o) ->
  every_container
    (fun d c =>
       d = destination ->
       Container.volume_left c <= ContainerAggregator.container_volume self)
    (snd (ContainerAggregator.prepare_containers orders self)).
Proof.
  intros Hpos; apply prepare_containers_every.
  apply Forall_forall; intros order Hin; split.
  - intros d c Hc Hq Hd; rewrite volume_left_append.
    apply qualifies_true in Hq; destruct Hq as [_ Hdest].
    specialize (Hc Hd).
    assert (0 <= Order.total_volume order) by (apply Hpos; congruence).
    lia.
  - intros Hd; rewrite volume_left_new.
    specialize (Hpos order Hin Hd); lia.
Qed.

Lemma dict_get_dict_append_same (destination : option string)
  (c : Container.t) (containers : containers_dict) :
  dict_get destination (dict_append destination c containers) =
  Some (match dict_get destination containers with
        | Some container_list => container_list ++ [c]
        | None => [c]
        end).
Proof.
  induction containers as [|[k cl] rest IH]; simpl.
  - rewrite destination_eqb_refl; reflexivity.
  - destruct (destination_eqb k destination) eqn:E; simpl; rewrite E.
    + reflexivity.
    + exact IH.
Qed.

Lemma dict_get_dict_append_keeps (destination destination' : option string)
  (c' : Container.t) (containers : containers_dict)
  (container_list : list Container.t) :
  dict_get destination containers = Some container_list ->
  exists container_list',
    dict_get destination (dict_append destination' c' containers) =
    Some container_list'
    /\ incl container_list container_list'.
Proof.
  induction containers as [|[k cl] rest IH]; simpl; [discriminate|].
  destruct (destination_eqb k destination') eqn:E1; simpl;
    destruct (destination_eqb k destination) eqn:E2; intros Hget.
  - injection Hget as <-; eexists; split; [reflexivity | apply incl_appl, incl_refl].
  - eexists; split; [exact Hget | apply incl_refl].
  - injection Hget as <-; eexists; split; [reflexivity | apply incl_refl].
  - apply IH; exact Hget.
Qed.

Section Keeping.

Import ContainerAggregator.

Variable order : Order.t.
Variable c : Container.t.
Variable destination : option string.

(** [c] is a container, stored under [destination], that the order does
    not qualify for. *)
Hypothesis c_rejects : qualifies order destination c = false.

Lemma append_to_first_keeps
  (container_list container_list' : list Container.t) :
  append_to_first order destination container_list = Some container_list' ->
  In c container_list -> In c container_list'.
Proof.
  revert container_list'.
  induction container_list as [|c0 rest IH]; intros cl' Hplace Hin;
    simpl in Hplace; [discriminate|].
  destruct (qualifies order destination c0) eqn:Hq.
  - injection Hplace as <-.
    destruct Hin as [Heq | Hin]; [|right; exact Hin].
    subst c0; rewrite c_rejects in Hq; discriminate.
  - destruct (append_to_first order destination rest) as [rest'|];
      simpl in Hplace; [|discriminate].
    injection Hplace as <-.
    destruct Hin as [Heq | Hin]; [left; exact Heq | right; auto].
Qed.

Lemma place_in_existing_keeps (containers containers' : containers_dict)
  (container_list : list Container.t) :
  place_in_existing order containers = Some containers' ->
  dict_get destination containers = Some container_list ->
  In c container_list ->
  exists container_list',
    dict_get destination containers' = Some container_list'
    /\ In c container_list'.
Proof.
  revert containers'.
  induction containers as [|[k cl] rest IH]; intros m' Hplace Hget Hin;
    simpl in Hplace, Hget; [discriminate|].
  destruct (append_to_first order k cl) as [cl'|] eqn:Hfirst.
  - injection Hplace as <-; simpl.
    destruct (destination_eqb k destination) eqn:Hk.
    + apply destination_eqb_eq in Hk; subst k.
      injection Hget as <-; exists cl'; split; [reflexivity|].
      eapply append_to_first_keeps; eassumption.
    + exists container_list; split; assumption.
  - destruct (place_in_existing order rest) as [rest'|];
      simpl in Hplace; [|discriminate].
    injection Hplace as <-; simpl.
    destruct (destination_eqb k destination).
    + exists container_list; split; assumption.
    + apply IH; [reflexivity | exact Hget | exact Hin].
Qed.

Lemma place_order_keeps (self : t) (containers : containers_dict)
  (container_list : list Container.t) :
  dict_get destination containers = Some container_list ->
  In c container_list ->
  exists container_list',
    dict_get destination (place_order self containers order) =
    Some container_list'
    /\ In c container_list'.
Proof.
  intros Hget Hin; unfold place_order.
  destruct (place_in_existing order containers) as [m'|] eqn:Hplace.
  - eapply place_in_existing_keeps; eassumption.
  - destruct (dict_get_dict_append_keeps destination (Order.destination order)
                (Container.append (Container.mk (container_volume self) []) order)
                containers container_list Hget) as (cl' & Hget' & Hincl).
    exists cl'; split; [exact Hget' | apply Hincl; exact Hin].
Qed.

End Keeping.

Lemma fold_place_order_keeps (self : ContainerAggregator.t)
  (c : Container.t) (destination : option string) (orders : list Order.t)
  (containers : containers_dict) :
  Forall (fun order =>
            ContainerAggregator.qualifies order destination c = false)
         orders ->
  (exists container_list,
     dict_get destination containers = Some container_list
     /\ In c container_list) ->
  exists container_list,
    dict_get destination
      (fold_left (ContainerAggregator.place_order self) orders containers) =
    Some container_list
    /\ In c container_list.
Proof.
  intros Hall; revert containers.
  induction Hall as [|order rest Horder _ IH]; intros m Hm; simpl.
  - exact Hm.
  - apply IH.
    destruct Hm as (cl & Hget & Hin).
    eapply place_order_keeps; eassumption.
Qed.

(** An order has no negative total volume when its items have positive
    quantities and unit volumes. *)
Lemma total_volume_nonnegative (order : Order.t) :
  Forall (fun item => 0 < OrderItem.quantity item
                      /\ 0 < OrderItem.one_item_volume item)
         (Order.order_items order) ->
  0 <= Order.total_volume order.
Proof.
  destruct order as [items d]; unfold Order.total_volume; simpl.
  rewrite sum_total.
  induction 1 as [|item rest [Hq Hv] _ IH]; simpl; [lia|].
  pose proof (Z.mul_pos_pos _ _ Hq Hv) as Hpos.
  unfold OrderItem.total_volume at 1; lia.
Qed.

(** The condition on the earlier orders cannot be dropped: an order with a
    negative total volume (a negative quantity) gives its container more
    room than the configured volume, and a later order of the same
    destination that is larger than the configured volume is then appended
    to that container. *)
Example negative_volume_makes_room :
  let d := Some "A"%string in
  let o1 := Order.mk [OrderItem.mk "X"%string "pen"%string (-2) 10] d in
  let o2 := Order.mk [OrderItem.mk "X"%string "ink"%string 15 1] d in
  let self := ContainerAggregator.init 10 in
  ContainerAggregator.container_volume self < Order.total_volume o2
  /\ snd (ContainerAggregator.prepare_containers [o1; o2] self) =
     [(d, [Container.mk 10 [o1; o2]])].
Proof. split; reflexivity. Qed.

(** C4: an input order whose total volume exceeds the configured container
    volume qualifies for no container and gets one of its own, provided
    the earlier orders of its destination have no negative total volume, as
    orders of items with positive quantity and unit volume have
    ([total_volume_nonnegative]).  A new container of the configured volume
    is made, the order is appended to it, and it is registered at the end
    of the list of the order's destination; its volume left is negative.
    When the later orders of that destination have no negative total volume
    either, that container, still holding the order alone, is in the
    returned mapping under the order's destination. *)
Theorem oversized_order_gets_new_container
  (self : ContainerAggregator.t)
  (earlier : list Order.t) (order : Order.t) (later : list Order.t) :
  (forall o, In o earlier ->
             Order.destination o = Order.destination order ->
             0 <= Order.total_volume o) ->
  ContainerAggregator.container_volume self < Order.total_volume order ->
  let fresh :=
    Container.mk (ContainerAggregator.container_volume self) [order] in
  snd (ContainerAggregator.prepare_containers (earlier ++ [order]) self) =
  dict_append (Order.destination order) fresh
    (snd (ContainerAggregator.prepare_containers earlier self))
  /\ Container.volume_left fresh < 0
  /\ ((forall o, In o later ->
                 Order.destination o = Order.destination order ->
                 0 <= Order.total_volume o) ->
      exists container_list,
        dict_get (Order.destination order)
          (snd (ContainerAggregator.prepare_containers
                  (earlier ++ order :: later) self)) =
        Some container_list
        /\ In fresh container_list).
Proof.
  intros Hearlier Hbig fresh.
  assert (Hleft : Container.volume_left fresh < 0).
  { change fresh with
      (Container.append
         (Container.mk (ContainerAggregator.container_volume self) []) order).
    rewrite volume_left_new; lia. }
  assert (Hstep :
    snd (ContainerAggregator.prepare_containers (earlier ++ [order]) self) =
    dict_append (Order.destination order) fresh
      (snd (ContainerAggregator.prepare_containers earlier self))).
  { rewrite prepare_containers_snoc; unfold ContainerAggregator.place_order.
    rewrite place_in_existing_none; [reflexivity|].
    eapply every_container_impl;
      [|apply (volume_left_at_most_capacity self earlier
                 (Order.destination order) Hearlier)].
    intros destination c Hc; simpl in Hc.
    destruct (destination_eqb destination (Order.destination order)) eqn:E.
    - apply destination_eqb_eq in E.
      apply qualifies_too_small; specialize (Hc E); lia.
    - apply qualifies_elsewhere, destination_eqb_neq; exact E. }
  split; [exact Hstep|]; split; [exact Hleft|].
  intros Hlater.
  replace (earlier ++ order :: later) with ((earlier ++ [order]) ++ later)
    by (rewrite <- app_assoc; reflexivity).
  unfold ContainerAggregator.prepare_containers in *; simpl in *.
  rewrite fold_left_app, Hstep.
  apply fold_place_order_keeps.
  - apply Forall_forall; intros o Ho.
    unfold ContainerAggregator.qualifies.
    destruct (destination_eqb (Order.destination o) (Order.destination order))
      eqn:E; [|apply andb_false_r].
    apply destination_eqb_eq in E.
    specialize (Hlater o Ho E).
    replace (Order.total_volume o <=? Container.volume_left fresh) with false;
      [reflexivity|].
    symmetry; apply Z.leb_gt; lia.
  - rewrite dict_get_dict_append_same.
    eexists; split; [reflexivity|].
    destruct (dict_get (Order.destination order)
                (fold_left (ContainerAggregator.place_order self) earlier []));
      [apply in_or_app; right|]; left; reflexivity.
Qed.

Lemma oversized_order_gets_new_container_witness :
  let d := Some "A"%string in
  let o1 := Order.mk [OrderItem.mk "X"%string "pen"%string 2 3] d in
  let o2 := Order.mk [OrderItem.mk "X"%string "ink"%string 3 5] d in
  let o3 := Order.mk [OrderItem.mk "X"%string "cup"%string 1 4] d in
  let self := ContainerAggregator.init 10 in
  snd (ContainerAggregator.prepare_containers [o1; o2] self) =
  [(d, [Container.mk 10 [o1]; Container.mk 10 [o2]])]
  /\ Container.volume_left (Container.mk 10 [o2]) < 0
  /\ exists container_list,
       dict_get d (snd (ContainerAggregator.prepare_containers [o1; o2; o3] self)) =
       Some container_list
       /\ In (Container.mk 10 [o2]) container_list.
Proof.
  intros d o1 o2 o3 self.
  destruct (oversized_order_gets_new_container self [o1] o2 [o3])
    as (Hstep & Hleft & Hfinal).
  - intros o [<- | []] _.
    apply total_volume_nonnegative; repeat constructor.
  - reflexivity.
  - split; [exact Hstep|]; split; [exact Hleft|].
    apply Hfinal.
    intros o [<- | []] _.
    apply total_volume_nonnegative; repeat constructor.
Defined.

(** ** Two runs of [prepare_containers] *)

(** Two orders of volume 6 for one destination and containers of volume 10:
    the second order does not fit next to the first and gets a container
    of its own. *)
Example prepare_containers_two_containers :
  let o1 := Order.mk [OrderItem.mk "X"%string "pen"%string 2 3] (Some "A"%string) in
  let o2 := Order.mk [OrderItem.mk "Y"%string "ink"%string 1 6] (Some "A"%string) in
  snd (ContainerAggregator.prepare_containers [o1; o2]
         (ContainerAggregator.init 10)) =
  [(Some "A"%string, [Container.mk 10 [o1]; Container.mk 10 [o2]])].
Proof. reflexivity. Qed.

(** First fit is not best fit: with a first container that has 8 left and a
    second that has exactly 5 left, an order of volume 5 goes to the
    first. *)
Example prepare_containers_not_best_fit :
  let d := Some "A"%string in
  let o1 := Order.mk [OrderItem.mk "X"%string "pen"%string 9 1] d in
  let o2 := Order.mk [OrderItem.mk "X"%string "ink"%string 3 5] d in
  let o3 := Order.mk [OrderItem.mk "X"%string "cup"%string 3 1] d in
  let o4 := Order.mk [OrderItem.mk "X"%string "pad"%string 5 1] d in
  let self := ContainerAggregator.init 20 in
  snd (ContainerAggregator.prepare_containers [o1; o2; o3] self) =
  [(d, [Container.mk 20 [o1; o3]; Container.mk 20 [o2]])]
  /\ Container.volume_left (Container.mk 20 [o1; o3]) = 8
  /\ Container.volume_left (Container.mk 20 [o2]) = 5
  /\ snd (ContainerAggregator.prepare_containers [o1; o2; o3; o4] self) =
     [(d, [Container.mk 20 [o1; o3; o4]; Container.mk 20 [o2]])].
Proof. repeat split; reflexivity. Qed.

(** * Further properties of [OrderAggregator] *)

Lemma filter_split_Permutation {A : Type} (f : A -> bool) (l : list A) :
  Permutation l (filter f l ++ filter (fun x => negb (f x)) l).
Proof.
  induction l as [|x l IH]; simpl; [constructor|].
  destruct (f x); simpl.
  - apply perm_skip; exact IH.
  - eapply perm_trans; [apply perm_skip, IH | apply Permutation_middle].
Qed.

(** [aggregate_order] never raises, although it calls [remove_items].  An
    order it returns has no destination, holds only items of the given
    customer, is within both limits, and together with the pool after the
    call makes up the pool before the call.  When it returns [None] a limit
    is exceeded and the pool is the one before the call. *)
Theorem aggregate_order_result
  (customer : string) (max_items_quantity max_volume : Z)
  (self : OrderAggregator.t) :
  exists (self' : OrderAggregator.t) (result : option Order.t),
    OrderAggregator.aggregate_order customer max_items_quantity max_volume self =
    (self', Return result)
    /\ match result with
       | Some order =>
           Order.destination order = None
           /\ Forall (fun item => OrderItem.customer item = customer)
                     (Order.order_items order)
           /\ Order.total_quantity order <= max_items_quantity
           /\ Order.total_volume order <= max_volume
           /\ Permutation (OrderAggregator.order_items self)
                (Order.order_items order ++ OrderAggregator.order_items self')
       | None =>
           self' = self
           /\ (max_items_quantity
               < total (map OrderItem.quantity
                          (filter (fun item =>
                                     String.eqb (OrderItem.customer item) customer)
                                  (OrderAggregator.order_items self)))
               \/ max_volume
                  < total (map OrderItem.total_volume
                             (filter (fun item =>
                                        String.eqb (OrderItem.customer item) customer)
                                     (OrderAggregator.order_items self))))
       end.
Proof.
  destruct self as [pool]; unfold OrderAggregator.aggregate_order; simpl.
  set (f := fun item => String.eqb (OrderItem.customer item) customer).
  destruct (sum (map OrderItem.quantity (filter f pool)) <=? max_items_quantity)
    eqn:Hq; simpl.
  - destruct (sum (map OrderItem.total_volume (filter f pool)) <=? max_volume)
      eqn:Hv; simpl.
    + rewrite remove_items_filter.
      eexists; eexists; split; [reflexivity|]; simpl.
      split; [reflexivity|]; split; [|split; [|split]].
      * apply Forall_forall; intros item Hin.
        apply filter_In in Hin; destruct Hin as [_ Hf].
        apply String.eqb_eq; exact Hf.
      * apply Z.leb_le; exact Hq.
      * apply Z.leb_le; exact Hv.
      * apply filter_split_Permutation.
    + eexists; eexists; split; [reflexivity|]; split; [reflexivity|].
      right; rewrite <- sum_total; apply Z.leb_gt; exact Hv.
  - eexists; eexists; split; [reflexivity|]; split; [reflexivity|].
    left; rewrite <- sum_total; apply Z.leb_gt; exact Hq.
Qed.

Lemma filter_none {A : Type} (f : A -> bool) (l : list A) :
  (forall x, In x l -> f x = false) -> filter f l = [].
Proof.
  induction l as [|x l IH]; simpl; intros H; [reflexivity|].
  rewrite (H x (or_introl eq_refl)); apply IH; intros y Hy; apply H; right; exact Hy.
Qed.

Lemma filter_all {A : Type} (f : A -> bool) (l : list A) :
  (forall x, In x l -> f x = true) -> filter f l = l.
Proof.
  induction l as [|x l IH]; simpl; intros H; [reflexivity|].
  rewrite (H x (or_introl eq_refl)); f_equal.
  apply IH; intros y Hy; apply H; right; exact Hy.
Qed.

(** A customer without pending items: [aggregate_order] returns an order
    with no items when both limits are at least 0 and [None] otherwise;
    the pool is untouched in both cases. *)
Theorem aggregate_order_no_pending_items
  (customer : string) (max_items_quantity max_volume : Z)
  (self : OrderAggregator.t) :
  (forall item, In item (OrderAggregator.order_items self) ->
                OrderItem.customer item <> customer) ->
  OrderAggregator.aggregate_order customer max_items_quantity max_volume self =
  (self,
   Return (if (0 <=? max_items_quantity) && (0 <=? max_volume)
           then Some (Order.mk [] None) else None)).
Proof.
  intros Hnone; destruct self as [pool]; simpl in Hnone.
  unfold OrderAggregator.aggregate_order; simpl.
  rewrite filter_none.
  - unfold sum; simpl.
    destruct ((0 <=? max_items_quantity) && (0 <=? max_volume)); reflexivity.
  - intros item Hin; apply String.eqb_neq, Hnone; exact Hin.
Qed.

Lemma aggregate_order_no_pending_items_witness :
  let ink := OrderItem.mk "Y"%string "ink"%string 7 9 in
  let self := OrderAggregator.mk [ink] in
  OrderAggregator.aggregate_order "X"%string 5 10 self =
  (self, Return (Some (Order.mk [] None)))
  /\ OrderAggregator.aggregate_order "X"%string (-1) 10 self =
     (self, Return None).
Proof.
  intros ink self; split.
  - apply (aggregate_order_no_pending_items "X"%string 5 10 self).
    intros item [Heq | []]; subst item; simpl; discriminate.
  - apply (aggregate_order_no_pending_items "X"%string (-1) 10 self).
    intros item [Heq | []]; subst item; simpl; discriminate.
Defined.

Lemma aggregate_order_returns (customer : string)
  (max_items_quantity max_volume : Z) (pool : list OrderItem.t) :
  let items :=
    filter (fun item => String.eqb (OrderItem.customer item) customer) pool in
  snd (OrderAggregator.aggregate_order customer max_items_quantity max_volume
         (OrderAggregator.mk pool)) =
  Return (if (sum (map OrderItem.quantity items) <=? max_items_quantity)
             && (sum (map OrderItem.total_volume items) <=? max_volume)
          then Some (Order.mk items None) else None).
Proof.
  intros items; unfold OrderAggregator.aggregate_order; simpl; fold items.
  destruct ((sum (map OrderItem.quantity items) <=? max_items_quantity)
            && (sum (map OrderItem.total_volume items) <=? max_volume));
    [|reflexivity].
  unfold items; rewrite remove_items_filter; reflexivity.
Qed.

Lemma filter_other_customer (customer other : string) (pool : list OrderItem.t) :
  customer <> other ->
  filter (fun item => String.eqb (OrderItem.customer item) other)
    (filter (fun item => negb (String.eqb (OrderItem.customer item) customer))
            pool) =
  filter (fun item => String.eqb (OrderItem.customer item) other) pool.
Proof.
  intros Hne; induction pool as [|x pool IH]; simpl; [reflexivity|].
  destruct (String.eqb (OrderItem.customer x) customer) eqn:Hc; simpl.
  - apply String.eqb_eq in Hc.
    replace (String.eqb (OrderItem.customer x) other) with false; [exact IH|].
    symmetry; apply String.eqb_neq; congruence.
  - rewrite IH; reflexivity.
Qed.

(** What [aggregate_order] returns for one customer does not depend on
    whether an order was aggregated for another customer before. *)
Theorem aggregate_order_other_customer
  (customer other : string) (q v q' v' : Z) (self : OrderAggregator.t) :
  customer <> other ->
  snd (OrderAggregator.aggregate_order other q' v'
         (fst (OrderAggregator.aggregate_order customer q v self))) =
  snd (OrderAggregator.aggregate_order other q' v' self).
Proof.
  intros Hne; destruct self as [pool].
  assert (Hfst :
    fst (OrderAggregator.aggregate_order customer q v (OrderAggregator.mk pool)) =
    OrderAggregator.mk pool
    \/ fst (OrderAggregator.aggregate_order customer q v (OrderAggregator.mk pool)) =
       OrderAggregator.mk
         (filter (fun item => negb (String.eqb (OrderItem.customer item) customer))
                 pool)).
  { unfold OrderAggregator.aggregate_order; simpl.
    match goal with |- context [if ?b then _ else _] => destruct b end.
    - right; rewrite remove_items_filter; reflexivity.
    - left; reflexivity. }
  destruct Hfst as [-> | ->]; [reflexivity|].
  rewrite !aggregate_order_returns; cbv zeta.
  rewrite filter_other_customer by exact Hne; reflexivity.
Qed.

Lemma aggregate_order_other_customer_witness :
  let pen := OrderItem.mk "X"%string "pen"%string 2 3 in
  let ink := OrderItem.mk "Y"%string "ink"%string 7 9 in
  let self := OrderAggregator.mk [pen; ink] in
  snd (OrderAggregator.aggregate_order "Y"%string 9 90
         (fst (OrderAggregator.aggregate_order "X"%string 5 10 self))) =
  Return (Some (Order.mk [ink] None)).
Proof.
  intros pen ink self.
  rewrite (aggregate_order_other_customer "X"%string "Y"%string 5 10 9 90 self).
  - reflexivity.
  - discriminate.
Defined.

(** ** [remove_items] *)

Lemma list_remove_Some (x : OrderItem.t) (l l' : list OrderItem.t) :
  list_remove x l = Some l' ->
  exists l1 l2, l = l1 ++ x :: l2 /\ l' = l1 ++ l2 /\ ~ In x l1.
Proof.
  revert l'; induction l as [|y l IH]; intros l' Hrm; simpl in Hrm.
  - discriminate.
  - destruct (OrderItem.eqb y x) eqn:E.
    + apply OrderItem_eqb_eq in E; subst y; injection Hrm as <-.
      exists [], l; repeat split; intros [].
    + destruct (list_remove x l) as [l0|]; simpl in Hrm; [|discriminate].
      injection Hrm as <-.
      destruct (IH l0 eq_refl) as (l1 & l2 & -> & -> & Hnin).
      exists (y :: l1), l2; repeat split.
      apply OrderItem_eqb_neq in E.
      intros [Heq | Hin]; [congruence | contradiction].
Qed.

Lemma list_remove_first (x : OrderItem.t) (l1 l2 : list OrderItem.t) :
  ~ In x l1 -> list_remove x (l1 ++ x :: l2) = Some (l1 ++ l2).
Proof.
  induction l1 as [|y l1 IH]; intros Hnin; simpl.
  - rewrite OrderItem_eqb_refl; reflexivity.
  - replace (OrderItem.eqb y x) with false.
    + rewrite IH; [reflexivity | intros Hin; apply Hnin; right; exact Hin].
    + symmetry; apply OrderItem_eqb_neq; intros Heq; apply Hnin; left; exact Heq.
Qed.

(** [remove_items] takes out the first item of the pool that equals the
    given one: the items before it and after it keep their places, and
    later copies of the item stay. *)
Theorem remove_items_first_occurrence
  (item : OrderItem.t) (before after : list OrderItem.t) :
  ~ In item before ->
  OrderAggregator.remove_items [item]
    (OrderAggregator.mk (before ++ item :: after)) =
  (OrderAggregator.mk (before ++ after), Return tt).
Proof.
  intros Hnin; simpl; rewrite list_remove_first by exact Hnin; reflexivity.
Qed.

Lemma remove_items_first_occurrence_witness :
  let a := OrderItem.mk "X"%string "a"%string 1 1 in
  let b := OrderItem.mk "Y"%string "b"%string 2 5 in
  OrderAggregator.remove_items [a] (OrderAggregator.mk [b; a; b; a]) =
  (OrderAggregator.mk [b; b; a], Return tt).
Proof.
  intros a b.
  apply (remove_items_first_occurrence a [b] [b; a]).
  intros [Heq | []]; discriminate Heq.
Defined.

(** When [remove_items], given a list that is not the pool itself, returns,
    the pool before the call is made up of the removed items and the pool
    after the call: every item of the list was in the pool, as many times
    as the list has it, and nothing else left the pool. *)
Theorem remove_items_returns
  (items : list OrderItem.t) (self self' : OrderAggregator.t) :
  OrderAggregator.remove_items_call (OrderAggregator.OtherList items) self =
  (self', Return tt) ->
  Permutation (OrderAggregator.order_items self)
              (items ++ OrderAggregator.order_items self').
Proof.
  cbn [OrderAggregator.remove_items_call].
  revert self; induction items as [|item rest IH]; intros [pool] Hcall;
    simpl in Hcall.
  - injection Hcall as <-; apply Permutation_refl.
  - destruct (list_remove item pool) as [l|] eqn:Hrm; [|discriminate].
    destruct (list_remove_Some _ _ _ Hrm) as (l1 & l2 & -> & -> & _).
    specialize (IH _ Hcall); simpl in IH |- *.
    eapply perm_trans; [apply Permutation_sym, Permutation_middle|].
    apply perm_skip; exact IH.
Qed.

Lemma remove_items_returns_witness :
  let a := OrderItem.mk "X"%string "a"%string 1 1 in
  let b := OrderItem.mk "Y"%string "b"%string 2 5 in
  OrderAggregator.remove_items_call (OrderAggregator.OtherList [a; b])
    (OrderAggregator.mk [b; a; b; a]) =
  (OrderAggregator.mk [b; a], Return tt)
  /\ Permutation [b; a; b; a] ([a; b] ++ [b; a]).
Proof.
  intros a b; split; [reflexivity|].
  apply (remove_items_returns [a; b] (OrderAggregator.mk [b; a; b; a])
           (OrderAggregator.mk [b; a])).
  reflexivity.
Defined.

(** [remove_items] is not all-or-nothing: when an item of the list is not
    in what is left of the pool, [ValueError] is raised, the items before it
    in the list stay removed, and the items after it are not looked at. *)
Theorem remove_items_missing_item
  (items : list OrderItem.t) (missing : OrderItem.t) (rest : list OrderItem.t)
  (self self' : OrderAggregator.t) :
  OrderAggregator.remove_items items self = (self', Return tt) ->
  ~ In missing (OrderAggregator.order_items self') ->
  OrderAggregator.remove_items (items ++ missing :: rest) self =
  (self', Raise ValueError).
Proof.
  revert self; induction items as [|item items IH]; intros [pool] Hcall Hnin;
    simpl in Hcall |- *.
  - injection Hcall as <-; simpl in Hnin.
    rewrite list_remove_not_In by exact Hnin; reflexivity.
  - destruct (list_remove item pool) as [l|]; [|discriminate].
    apply IH; assumption.
Qed.

Lemma remove_items_missing_item_witness :
  let a := OrderItem.mk "X"%string "a"%string 1 1 in
  let b := OrderItem.mk "Y"%string "b"%string 2 5 in
  OrderAggregator.remove_items [a; a; b] (OrderAggregator.mk [a; b]) =
  (OrderAggregator.mk [b], Raise ValueError).
Proof.
  intros a b.
  apply (remove_items_missing_item [a] a [b] (OrderAggregator.mk [a; b])
           (OrderAggregator.mk [b])).
  - reflexivity.
  - intros [Heq | []]; discriminate Heq.
Defined.

(** * Further properties of [ContainerAggregator] *)

(** ** The orders of the mapping are the input orders *)

Section Conservation.

Import ContainerAggregator.

Variable order : Order.t.

Lemma append_to_first_orders (destination : option string)
  (container_list container_list' : list Container.t) :
  append_to_first order destination container_list = Some container_list' ->
  Permutation (flat_map Container.orders container_list')
              (order :: flat_map Container.orders container_list).
Proof.
  revert container_list'.
  induction container_list as [|c rest IH]; intros cl' Hplace; simpl in Hplace.
  - discriminate.
  - destruct (qualifies order destination c).
    + injection Hplace as <-; simpl.
      rewrite <- app_assoc; simpl.
      apply Permutation_sym, Permutation_middle.
    + destruct (append_to_first order destination rest) as [rest'|];
        simpl in Hplace; [|discriminate].
      injection Hplace as <-; simpl.
      eapply perm_trans; [apply Permutation_app_head, (IH rest' eq_refl)|].
      apply Permutation_sym, Permutation_middle.
Qed.

Lemma place_in_existing_orders (containers containers' : containers_dict) :
  place_in_existing order containers = Some containers' ->
  Permutation (orders_of containers') (order :: orders_of containers).
Proof.
  revert containers'.
  induction containers as [|[destination cl] rest IH]; intros m' Hplace;
    simpl in Hplace.
  - discriminate.
  - destruct (append_to_first order destination cl) as [cl'|] eqn:Hfirst.
    + injection Hplace as <-; unfold orders_of; simpl.
      apply (Permutation_app_tail _ (append_to_first_orders _ _ _ Hfirst)).
    + destruct (place_in_existing order rest) as [rest'|];
        simpl in Hplace; [|discriminate].
      injection Hplace as <-; unfold orders_of in *; simpl.
      eapply perm_trans; [apply Permutation_app_head, (IH rest' eq_refl)|].
      apply Permutation_sym, Permutation_middle.
Qed.

Lemma dict_append_orders (destination : option string) (c : Container.t)
  (containers : containers_dict) :
  Permutation (orders_of (dict_append destination c containers))
              (Container.orders c ++ orders_of containers).
Proof.
  unfold orders_of.
  induction containers as [|[k cl] rest IH]; simpl.
  - rewrite !app_nil_r; apply Permutation_refl.
  - destruct (destination_eqb k destination); simpl.
    + rewrite flat_map_app; simpl; rewrite app_nil_r.
      rewrite !app_assoc; apply Permutation_app_tail, Permutation_app_comm.
    + eapply perm_trans; [apply Permutation_app_head, IH|].
      rewrite !app_assoc; apply Permutation_app_tail, Permutation_app_comm.
Qed.

Lemma place_order_orders (self : t) (containers : containers_dict) :
  Permutation (orders_of (place_order self containers order))
              (order :: orders_of containers).
Proof.
  unfold place_order.
  destruct (place_in_existing order containers) as [m'|] eqn:Hplace.
  - apply place_in_existing_orders; exact Hplace.
  - apply (dict_append_orders (Order.destination order)
             (Container.append (Container.mk (container_volume self) []) order)).
Qed.

End Conservation.

(** The orders held by the containers of the returned mapping are the input
    orders, each as many times as the input has it: no order is dropped,
    none is placed twice, none is made up. *)
Theorem prepare_containers_same_orders
  (self : ContainerAggregator.t) (orders : list Order.t) :
  Permutation
    (orders_of (snd (ContainerAggregator.prepare_containers orders self)))
    orders.
Proof.
  unfold ContainerAggregator.prepare_containers; simpl.
  assert (Hfold : forall m,
            Permutation
              (orders_of (fold_left (ContainerAggregator.place_order self) orders m))
              (orders_of m ++ orders)).
  { induction orders as [|order rest IH]; intros m; simpl.
    - rewrite app_nil_r; apply Permutation_refl.
    - eapply perm_trans; [apply IH|].
      eapply perm_trans;
        [apply Permutation_app_tail, place_order_orders|].
      simpl; apply Permutation_middle. }
  apply (Hfold []).
Qed.

(** ** The shape of the mapping *)

Lemma place_order_entries_nonempty (self : ContainerAggregator.t)
  (containers : containers_dict) (order : Order.t) :
  Forall (fun entry => snd entry <> []) containers ->
  Forall (fun entry => snd entry <> [])
         (ContainerAggregator.place_order self containers order).
Proof.
  intros Hall; unfold ContainerAggregator.place_order.
  destruct (ContainerAggregator.place_in_existing order containers)
    as [m'|] eqn:Hplace.
  - revert m' Hplace.
    induction Hall as [|[k cl] rest Hentry Hrest IH]; intros m' Hplace;
      simpl in Hplace; [discriminate|].
    destruct (ContainerAggregator.append_to_first order k cl) as [cl'|] eqn:Hfirst.
    + injection Hplace as <-; constructor; [|assumption].
      simpl; intros ->.
      apply append_to_first_held in Hfirst; discriminate Hfirst.
    + destruct (ContainerAggregator.place_in_existing order rest) as [rest'|];
        simpl in Hplace; [|discriminate].
      injection Hplace as <-; constructor; [exact Hentry | apply IH; reflexivity].
  - clear Hplace.
    induction Hall as [|[k cl] rest Hentry Hrest IH]; simpl.
    + repeat constructor; discriminate.
    + destruct (destination_eqb k (Order.destination order)).
      * constructor; [|assumption].
        simpl; intros Heq; apply app_eq_nil in Heq; destruct Heq; discriminate.
      * constructor; assumption.
Qed.

Lemma prepare_containers_entries_nonempty (self : ContainerAggregator.t)
  (orders : list Order.t) :
  Forall (fun entry => snd entry <> [])
         (snd (ContainerAggregator.prepare_containers orders self)).
Proof.
  unfold ContainerAggregator.prepare_containers; simpl.
  assert (Hempty : Forall (fun entry : option string * list Container.t =>
                             snd entry <> []) []) by constructor.
  revert Hempty; generalize (@nil (option string * list Container.t)).
  induction orders as [|order rest IH]; intros m Hm; simpl; [exact Hm|].
  apply IH, place_order_entries_nonempty; exact Hm.
Qed.

(** No entry of the returned mapping has an empty list, and every
    container in it has the configured volume and holds at least one
    order. *)
Theorem prepare_containers_no_empty_container
  (self : ContainerAggregator.t) (orders : list Order.t)
  (destination : option string) (container_list : list Container.t) :
  In (destination, container_list)
     (snd (ContainerAggregator.prepare_containers orders self)) ->
  container_list <> []
  /\ forall c, In c container_list ->
       Container.volume c = ContainerAggregator.container_volume self
       /\ Container.orders c <> [].
Proof.
  intros Hentry; split.
  - pose proof (prepare_containers_entries_nonempty self orders) as Hall.
    rewrite Forall_forall in Hall; apply (Hall _ Hentry).
  - intros c Hc.
    apply (proj1 (every_container_In
                    (fun _ c => Container.volume c =
                                ContainerAggregator.container_volume self
                                /\ Container.orders c <> [])
                    (snd (ContainerAggregator.prepare_containers orders self))))
      with (destination := destination) (container_list := container_list);
      [|exact Hentry|exact Hc].
    apply prepare_containers_every, Forall_forall; intros order _; split.
    + intros d c' [Hvol _] _; split; [exact Hvol|].
      simpl; intros Heq; apply app_eq_nil in Heq; destruct Heq; discriminate.
    + split; [reflexivity | discriminate].
Qed.

Lemma prepare_containers_no_empty_container_witness :
  let o1 := Order.mk [OrderItem.mk "X"%string "pen"%string 2 3] (Some "A"%string) in
  let o2 := Order.mk [OrderItem.mk "Y"%string "ink"%string 1 6] None in
  let self := ContainerAggregator.init 10 in
  [Container.mk 10 [o2]] <> []
  /\ forall c, In c [Container.mk 10 [o2]] ->
       Container.volume c = 10 /\ Container.orders c <> [].
Proof.
  intros o1 o2 self.
  apply (prepare_containers_no_empty_container self [o1; o2] None).
  right; left; reflexivity.
Defined.

(** ** The keys of the mapping *)

Lemma append_to_first_Some_destination (order : Order.t)
  (destination : option string) (container_list container_list' : list Container.t) :
  ContainerAggregator.append_to_first order destination container_list =
  Some container_list' ->
  Order.destination order = destination.
Proof.
  revert container_list'.
  induction container_list as [|c rest IH]; intros cl' Hplace; simpl in Hplace.
  - discriminate.
  - destruct (ContainerAggregator.qualifies order destination c) eqn:Hq.
    + apply qualifies_true in Hq; apply Hq.
    + destruct (ContainerAggregator.append_to_first order destination rest)
        as [rest'|]; simpl in Hplace; [|discriminate].
      apply (IH rest' eq_refl).
Qed.

Lemma place_in_existing_Some_key (order : Order.t)
  (containers containers' : containers_dict) :
  ContainerAggregator.place_in_existing order containers = Some containers' ->
  existsb (fun k => destination_eqb k (Order.destination order))
          (map fst containers) = true.
Proof.
  revert containers'.
  induction containers as [|[k cl] rest IH]; intros m' Hplace; simpl in Hplace.
  - discriminate.
  - simpl.
    destruct (ContainerAggregator.append_to_first order k cl) as [cl'|] eqn:Hfirst.
    + apply append_to_first_Some_destination in Hfirst; subst k.
      rewrite destination_eqb_refl; reflexivity.
    + destruct (ContainerAggregator.place_in_existing order rest) as [rest'|];
        simpl in Hplace; [|discriminate].
      rewrite (IH rest' eq_refl); apply orb_true_r.
Qed.

Lemma dict_append_keys (destination : option string) (c : Container.t)
  (containers : containers_dict) :
  map fst (dict_append destination c containers) =
  if existsb (fun k => destination_eqb k destination) (map fst containers)
  then map fst containers
  else map fst containers ++ [destination].
Proof.
  induction containers as [|[k cl] rest IH]; simpl; [reflexivity|].
  destruct (destination_eqb k destination); simpl; [reflexivity|].
  rewrite IH.
  destruct (existsb (fun k0 => destination_eqb k0 destination) (map fst rest));
    reflexivity.
Qed.

Lemma place_order_keys (self : ContainerAggregator.t)
  (containers : containers_dict) (order : Order.t) :
  map fst (ContainerAggregator.place_order self containers order) =
  if existsb (fun k => destination_eqb k (Order.destination order))
             (map fst containers)
  then map fst containers
  else map fst containers ++ [Order.destination order].
Proof.
  unfold ContainerAggregator.place_order.
  destruct (ContainerAggregator.place_in_existing order containers)
    as [m'|] eqn:Hplace.
  - rewrite (place_in_existing_keys _ _ _ Hplace).
    rewrite (place_in_existing_Some_key _ _ _ Hplace); reflexivity.
  - apply dict_append_keys.
Qed.

Lemma place_order_keys_NoDup (self : ContainerAggregator.t)
  (containers : containers_dict) (order : Order.t) :
  NoDup (map fst containers) ->
  NoDup (map fst (ContainerAggregator.place_order self containers order)).
Proof.
  intros Hnd; unfold ContainerAggregator.place_order.
  destruct (ContainerAggregator.place_in_existing order containers)
    as [m'|] eqn:Hplace.
  - rewrite (place_in_existing_keys _ _ _ Hplace); exact Hnd.
  - apply dict_append_keys_NoDup; exact Hnd.
Qed.

Lemma first_seen_In (destinations seen : list (option string))
  (d : option string) :
  In d (fold_left (fun seen d =>
                     if existsb (fun k => destination_eqb k d) seen then seen
                     else seen ++ [d])
                  destinations seen) <->
  In d seen \/ In d destinations.
Proof.
  revert seen; induction destinations as [|x rest IH]; intros seen; simpl.
  - tauto.
  - rewrite IH.
    destruct (existsb (fun k => destination_eqb k x) seen) eqn:E.
    + apply existsb_exists in E; destruct E as (k & Hk & Heq).
      apply destination_eqb_eq in Heq; subst k.
      split; [tauto|].
      intros [H | [H | H]]; [tauto | subst; tauto | tauto].
    + rewrite in_app_iff; simpl; tauto.
Qed.

Lemma fold_place_order_keys (self : ContainerAggregator.t)
  (orders : list Order.t) (containers : containers_dict) :
  map fst (fold_left (ContainerAggregator.place_order self) orders containers) =
  fold_left (fun seen d =>
               if existsb (fun k => destination_eqb k d) seen then seen
               else seen ++ [d])
            (map Order.destination orders) (map fst containers).
Proof.
  revert containers; induction orders as [|order rest IH]; intros m; simpl.
  - reflexivity.
  - rewrite IH, place_order_keys; reflexivity.
Qed.

(** The keys of the returned mapping are the destinations of the input
    orders, each once, in the order in which the input first has them. *)
Theorem prepare_containers_keys
  (self : ContainerAggregator.t) (orders : list Order.t) :
  let keys :=
    map fst (snd (ContainerAggregator.prepare_containers orders self)) in
  keys = first_seen (map Order.destination orders)
  /\ NoDup keys
  /\ forall d, In d keys <-> In d (map Order.destination orders).
Proof.
  intros keys.
  assert (Hkeys : keys = first_seen (map Order.destination orders)).
  { unfold keys, first_seen, ContainerAggregator.prepare_containers; simpl.
    apply (fold_place_order_keys self orders []). }
  split; [exact Hkeys|]; split.
  - apply prepare_containers_keys_NoDup.
  - intros d; rewrite Hkeys; unfold first_seen.
    rewrite first_seen_In; simpl; tauto.
Qed.

(** ** One destination at a time *)

Lemma dict_get_None (destination : option string) (containers : containers_dict) :
  dict_get destination containers = None <->
  ~ In destination (map fst containers).
Proof.
  induction containers as [|[k cl] rest IH]; simpl.
  - split; [intros _ [] | reflexivity].
  - destruct (destination_eqb k destination) eqn:E.
    + apply destination_eqb_eq in E; split; [discriminate | intros H].
      exfalso; apply H; left; exact E.
    + apply destination_eqb_neq in E; rewrite IH; tauto.
Qed.

Lemma dict_get_dict_append_other (destination destination' : option string)
  (c : Container.t) (containers : containers_dict) :
  destination <> destination' ->
  dict_get destination (dict_append destination' c containers) =
  dict_get destination containers.
Proof.
  intros Hne; induction containers as [|[k cl] rest IH]; simpl.
  - replace (destination_eqb destination' destination) with false; [reflexivity|].
    symmetry; apply destination_eqb_neq; congruence.
  - destruct (destination_eqb k destination') eqn:E1; simpl;
      destruct (destination_eqb k destination) eqn:E2; try reflexivity.
    + apply destination_eqb_eq in E1, E2; congruence.
    + exact IH.
Qed.

Section Bucket.

Import ContainerAggregator.

Variable order : Order.t.

Lemma place_in_existing_no_key (containers : containers_dict) :
  ~ In (Order.destination order) (map fst containers) ->
  place_in_existing order containers = None.
Proof.
  intros Hnin; apply place_in_existing_none.
  apply every_container_In; intros k cl c Hentry _.
  apply qualifies_elsewhere; intros Heq; apply Hnin.
  rewrite <- Heq; apply (in_map fst _ _ Hentry).
Qed.

Lemma place_in_existing_other (containers containers' : containers_dict)
  (destination : option string) :
  place_in_existing order containers = Some containers' ->
  destination <> Order.destination order ->
  dict_get destination containers' = dict_get destination containers.
Proof.
  intros Hplace Hne; revert containers' Hplace.
  induction containers as [|[k cl] rest IH]; intros m' Hplace; simpl in Hplace.
  - discriminate.
  - destruct (append_to_first order k cl) as [cl'|] eqn:Hfirst.
    + injection Hplace as <-; simpl.
      apply append_to_first_Some_destination in Hfirst; subst k.
      replace (destination_eqb (Order.destination order) destination) with false;
        [reflexivity|].
      symmetry; apply destination_eqb_neq; congruence.
    + destruct (place_in_existing order rest) as [rest'|];
        simpl in Hplace; [|discriminate].
      injection Hplace as <-; simpl; rewrite (IH rest' eq_refl); reflexivity.
Qed.

Lemma place_in_existing_bucket_Some (containers : containers_dict)
  (container_list container_list' : list Container.t) :
  dict_get (Order.destination order) containers = Some container_list ->
  append_to_first order (Order.destination order) container_list =
  Some container_list' ->
  exists containers',
    place_in_existing order containers = Some containers'
    /\ dict_get (Order.destination order) containers' = Some container_list'.
Proof.
  intros Hget Hfirst.
  induction containers as [|[k cl] rest IH]; simpl in Hget |- *; [discriminate|].
  destruct (destination_eqb k (Order.destination order)) eqn:E.
  - apply destination_eqb_eq in E; subst k; injection Hget as ->.
    rewrite Hfirst; eexists; split; [reflexivity|].
    simpl; rewrite destination_eqb_refl; reflexivity.
  - rewrite append_to_first_none.
    + destruct (IH Hget) as (rest' & Hplace & Hget').
      rewrite Hplace; eexists; split; [reflexivity|].
      simpl; rewrite E; exact Hget'.
    + apply Forall_forall; intros c _; apply qualifies_elsewhere.
      apply destination_eqb_neq; exact E.
Qed.

Lemma place_in_existing_bucket_None (containers : containers_dict)
  (container_list : list Container.t) :
  NoDup (map fst containers) ->
  dict_get (Order.destination order) containers = Some container_list ->
  append_to_first order (Order.destination order) container_list = None ->
  place_in_existing order containers = None.
Proof.
  intros Hnd Hget Hfirst.
  induction containers as [|[k cl] rest IH]; simpl in Hget |- *; [discriminate|].
  inversion Hnd as [|? ? Hk Hrest]; subst.
  destruct (destination_eqb k (Order.destination order)) eqn:E.
  - apply destination_eqb_eq in E; subst k; injection Hget as ->.
    rewrite Hfirst, place_in_existing_no_key by exact Hk; reflexivity.
  - rewrite append_to_first_none.
    + rewrite (IH Hrest Hget); reflexivity.
    + apply Forall_forall; intros c _; apply qualifies_elsewhere.
      apply destination_eqb_neq; exact E.
Qed.

Variable self : t.

Let fresh : Container.t :=
  Container.append (Container.mk (container_volume self) []) order.

Lemma place_order_other (containers : containers_dict)
  (destination : option string) :
  destination <> Order.destination order ->
  dict_get destination (place_order self containers order) =
  dict_get destination containers.
Proof.
  intros Hne; unfold place_order.
  destruct (place_in_existing order containers) as [m'|] eqn:Hplace.
  - eapply place_in_existing_other; eassumption.
  - apply dict_get_dict_append_other; exact Hne.
Qed.

(** What a placement does to the list of the order's destination depends on
    that list alone. *)
Lemma place_order_bucket (containers : containers_dict) :
  NoDup (map fst containers) ->
  dict_get (Order.destination order) (place_order self containers order) =
  Some (match dict_get (Order.destination order) containers with
        | Some container_list =>
            match append_to_first order (Order.destination order) container_list with
            | Some container_list' => container_list'
            | None => container_list ++ [fresh]
            end
        | None => [fresh]
        end).
Proof.
  intros Hnd; unfold place_order.
  destruct (dict_get (Order.destination order) containers) as [cl|] eqn:Hget.
  - destruct (append_to_first order (Order.destination order) cl) as [cl'|]
      eqn:Hfirst.
    + destruct (place_in_existing_bucket_Some _ _ _ Hget Hfirst)
        as (m' & Hplace & Hget').
      rewrite Hplace; exact Hget'.
    + rewrite (place_in_existing_bucket_None _ _ Hnd Hget Hfirst).
      rewrite dict_get_dict_append_same, Hget; reflexivity.
  - rewrite place_in_existing_no_key by (apply dict_get_None; exact Hget).
    rewrite dict_get_dict_append_same, Hget; reflexivity.
Qed.

End Bucket.

(** A new container is opened exactly when nothing fits: if none of the
    containers made so far for the destination of the next order has room
    for it (or the destination has none yet), a container of the configured
    volume holding just this order is appended to the list of that
    destination, the key being added last when it is new; everything else
    stays as it is. *)
Theorem prepare_containers_opens_container
  (self : ContainerAggregator.t) (placed : list Order.t) (order : Order.t) :
  (forall container_list c,
     dict_get (Order.destination order)
       (snd (ContainerAggregator.prepare_containers placed self)) =
     Some container_list ->
     In c container_list ->
     Container.volume_left c < Order.total_volume order) ->
  snd (ContainerAggregator.prepare_containers (placed ++ [order]) self) =
  dict_append (Order.destination order)
    (Container.mk (ContainerAggregator.container_volume self) [order])
    (snd (ContainerAggregator.prepare_containers placed self)).
Proof.
  intros Hroom; rewrite prepare_containers_snoc.
  unfold ContainerAggregator.place_order.
  set (m := snd (ContainerAggregator.prepare_containers placed self)) in *.
  assert (Hnone : ContainerAggregator.place_in_existing order m = None).
  { destruct (dict_get (Order.destination order) m) as [cl|] eqn:Hget.
    - apply place_in_existing_bucket_None with (container_list := cl).
      + apply prepare_containers_keys_NoDup.
      + exact Hget.
      + apply append_to_first_none, Forall_forall; intros c Hc.
        apply qualifies_too_small, (Hroom cl c eq_refl Hc).
    - apply place_in_existing_no_key, dict_get_None; exact Hget. }
  rewrite Hnone; reflexivity.
Qed.

Lemma prepare_containers_opens_container_witness :
  let o1 := Order.mk [OrderItem.mk "X"%string "pen"%string 2 3] (Some "A"%string) in
  let o2 := Order.mk [OrderItem.mk "Y"%string "ink"%string 1 6] (Some "A"%string) in
  let self := ContainerAggregator.init 10 in
  snd (ContainerAggregator.prepare_containers [o1; o2] self) =
  [(Some "A"%string, [Container.mk 10 [o1]; Container.mk 10 [o2]])].
Proof.
  intros o1 o2 self.
  apply (prepare_containers_opens_container self [o1] o2).
  intros cl c Hget Hc; vm_compute in Hget; injection Hget as <-.
  destruct Hc as [<- | []]; reflexivity.
Defined.

Lemma fold_place_order_one_destination (self : ContainerAggregator.t)
  (destination : option string) (orders : list Order.t)
  (all only : containers_dict) :
  NoDup (map fst all) -> NoDup (map fst only) ->
  dict_get destination all = dict_get destination only ->
  dict_get destination
    (fold_left (ContainerAggregator.place_order self) orders all) =
  dict_get destination
    (fold_left (ContainerAggregator.place_order self)
       (filter (fun order => destination_eqb (Order.destination order) destination)
               orders)
       only).
Proof.
  revert all only; induction orders as [|order rest IH];
    intros all only Hall Honly Hsame; simpl.
  - exact Hsame.
  - destruct (destination_eqb (Order.destination order) destination) eqn:E; simpl.
    + apply destination_eqb_eq in E; subst destination.
      apply IH; try (apply place_order_keys_NoDup; assumption).
      rewrite !place_order_bucket by assumption.
      rewrite Hsame; reflexivity.
    + apply destination_eqb_neq in E.
      apply IH; [apply place_order_keys_NoDup; assumption | exact Honly |].
      rewrite place_order_other by congruence; exact Hsame.
Qed.

(** Destinations are packed independently: the containers the returned
    mapping has for a destination are those the call returns when it is
    given only the orders of that destination, in the same order. *)
Theorem prepare_containers_one_destination
  (self : ContainerAggregator.t) (orders : list Order.t)
  (destination : option string) :
  dict_get destination
    (snd (ContainerAggregator.prepare_containers orders self)) =
  dict_get destination
    (snd (ContainerAggregator.prepare_containers
            (filter (fun order =>
                       destination_eqb (Order.destination order) destination)
                    orders)
            self)).
Proof.
  unfold ContainerAggregator.prepare_containers; simpl.
  apply fold_place_order_one_destination; [constructor | constructor | reflexivity].
Qed.

(** ** What first fit guarantees *)

Section Pairs.

Import ContainerAggregator.

Variable self : t.

(** Two containers that leave, together, less than one container's volume
    unused. *)
Let crowded (c c' : Container.t) : Prop :=
  Container.volume_left c + Container.volume_left c' < container_volume self.

Variable order : Order.t.
Hypothesis order_volume : 0 <= Order.total_volume order.

Lemma append_to_first_None_inv (destination : option string)
  (container_list : list Container.t) :
  append_to_first order destination container_list = None ->
  Forall (fun c => qualifies order destination c = false) container_list.
Proof.
  induction container_list as [|c rest IH]; simpl; intros Hnone.
  - constructor.
  - destruct (qualifies order destination c) eqn:Hq; [discriminate|].
    destruct (append_to_first order destination rest); [discriminate|].
    constructor; [exact Hq | apply IH; reflexivity].
Qed.

Lemma place_in_existing_None_inv (containers : containers_dict) :
  place_in_existing order containers = None ->
  every_container (fun destination c => qualifies order destination c = false)
                  containers.
Proof.
  unfold every_container.
  induction containers as [|[k cl] rest IH]; simpl; intros Hnone.
  - constructor.
  - destruct (append_to_first order k cl) eqn:Hfirst; [discriminate|].
    destruct (place_in_existing order rest); [discriminate|].
    constructor; [apply append_to_first_None_inv; exact Hfirst | apply IH; reflexivity].
Qed.

Lemma append_to_first_pairs (destination : option string)
  (container_list container_list' : list Container.t) :
  ForallOrdPairs crowded container_list ->
  append_to_first order destination container_list = Some container_list' ->
  ForallOrdPairs crowded container_list'.
Proof.
  intros Hpairs; revert container_list'.
  induction Hpairs as [|c rest Hc Hrest IH]; intros cl' Hplace; simpl in Hplace.
  - discriminate.
  - destruct (qualifies order destination c) eqn:Hq.
    + injection Hplace as <-; constructor; [|exact Hrest].
      eapply Forall_impl; [|exact Hc].
      intros c'; unfold crowded; rewrite volume_left_append; lia.
    + destruct (append_to_first order destination rest) as [rest'|] eqn:Hfirst;
        simpl in Hplace; [|discriminate].
      injection Hplace as <-; constructor; [|apply IH; reflexivity].
      apply (append_to_first_every (fun _ c' => crowded c c') order)
        with (destination := destination) (container_list := rest);
        [|exact Hc|exact Hfirst].
      intros _ c' Hcc' _; unfold crowded in *.
      rewrite volume_left_append; lia.
Qed.

Lemma pairs_snoc (container_list : list Container.t) (c' : Container.t) :
  ForallOrdPairs crowded container_list ->
  Forall (fun c => crowded c c') container_list ->
  ForallOrdPairs crowded (container_list ++ [c']).
Proof.
  induction 1 as [|c rest Hc Hrest IH]; intros Hall; simpl.
  - repeat constructor.
  - inversion Hall as [|? ? Hcc' Hrest']; subst.
    constructor; [|apply IH; exact Hrest'].
    apply Forall_app; split; [exact Hc | repeat constructor; exact Hcc'].
Qed.

Lemma place_order_pairs (containers : containers_dict) :
  Forall (fun entry => ForallOrdPairs crowded (snd entry)) containers ->
  Forall (fun entry => ForallOrdPairs crowded (snd entry))
         (place_order self containers order).
Proof.
  intros Hall; unfold place_order.
  destruct (place_in_existing order containers) as [m'|] eqn:Hplace.
  - revert m' Hplace.
    induction Hall as [|[k cl] rest Hentry Hrest IH]; intros m' Hplace;
      simpl in Hplace; [discriminate|].
    destruct (append_to_first order k cl) as [cl'|] eqn:Hfirst.
    + injection Hplace as <-; constructor; [|exact Hrest].
      simpl; eapply append_to_first_pairs; eassumption.
    + destruct (place_in_existing order rest) as [rest'|];
        simpl in Hplace; [|discriminate].
      injection Hplace as <-; constructor; [exact Hentry | apply IH; reflexivity].
  - apply place_in_existing_None_inv in Hplace; unfold every_container in Hplace.
    induction Hall as [|[k cl] rest Hentry Hrest IH]; simpl.
    + repeat constructor.
    + inversion Hplace as [|? ? Hk Hplace']; subst; simpl in Hk.
      destruct (destination_eqb k (Order.destination order)) eqn:E.
      * constructor; [|exact Hrest].
        simpl; apply pairs_snoc; [exact Hentry|].
        eapply Forall_impl; [|exact Hk].
        intros c Hq; unfold crowded; rewrite volume_left_new.
        apply destination_eqb_eq in E; subst k.
        unfold qualifies in Hq; rewrite destination_eqb_refl, andb_true_r in Hq.
        apply Z.leb_gt in Hq; lia.
      * constructor; [exact Hentry | apply IH; exact Hplace'].
Qed.

End Pairs.

Lemma ordered_pair_split {A : Type} (R : A -> A -> Prop)
  (l1 : list A) (a : A) (l2 : list A) (b : A) (l3 : list A) :
  ForallOrdPairs R (l1 ++ a :: l2 ++ b :: l3) -> R a b.
Proof.
  induction l1 as [|x l1 IH]; simpl; intros Hpairs;
    inversion Hpairs as [|? ? Hhead Htail]; subst.
  - rewrite Forall_forall in Hhead; apply Hhead.
    apply in_or_app; right; left; reflexivity.
  - apply IH; exact Htail.
Qed.

(** With input orders of non-negative total volume, any two containers of
    one destination leave, together, less than one container's volume
    unused: the orders of the two could not share a single container. *)
Theorem prepare_containers_no_two_mergeable
  (self : ContainerAggregator.t) (orders : list Order.t)
  (destination : option string)
  (l1 : list Container.t) (c : Container.t) (l2 : list Container.t)
  (c' : Container.t) (l3 : list Container.t) :
  Forall (fun order => 0 <= Order.total_volume order) orders ->
  In (destination, l1 ++ c :: l2 ++ c' :: l3)
     (snd (ContainerAggregator.prepare_containers orders self)) ->
  Container.volume_left c + Container.volume_left c'
  < ContainerAggregator.container_volume self.
Proof.
  intros Hpos Hentry.
  assert (Hall :
    Forall (fun entry =>
              ForallOrdPairs
                (fun c c' =>
                   Container.volume_left c + Container.volume_left c'
                   < ContainerAggregator.container_volume self)
                (snd entry))
           (snd (ContainerAggregator.prepare_containers orders self))).
  { clear Hentry; unfold ContainerAggregator.prepare_containers; simpl.
    assert (Hempty :
      Forall (fun entry : option string * list Container.t =>
                ForallOrdPairs
                  (fun c c' =>
                     Container.volume_left c + Container.volume_left c'
                     < ContainerAggregator.container_volume self)
                  (snd entry)) []) by constructor.
    revert Hempty; generalize (@nil (option string * list Container.t)).
    induction Hpos as [|order rest Horder _ IH]; intros m Hm; simpl; [exact Hm|].
    apply IH, place_order_pairs; assumption. }
  rewrite Forall_forall in Hall; specialize (Hall _ Hentry); simpl in Hall.
  apply ordered_pair_split in Hall; exact Hall.
Qed.

Lemma prepare_containers_no_two_mergeable_witness :
  let o1 := Order.mk [OrderItem.mk "X"%string "pen"%string 2 3] (Some "A"%string) in
  let o2 := Order.mk [OrderItem.mk "Y"%string "ink"%string 1 6] (Some "A"%string) in
  let self := ContainerAggregator.init 10 in
  Container.volume_left (Container.mk 10 [o1])
  + Container.volume_left (Container.mk 10 [o2]) < 10.
Proof.
  intros o1 o2 self.
  apply (prepare_containers_no_two_mergeable self [o1; o2] (Some "A"%string)
           [] (Container.mk 10 [o1]) [] (Container.mk 10 [o2]) []).
  - repeat constructor; vm_compute; discriminate.
  - left; reflexivity.
Defined.

(** ** Containers are only ever extended *)

(** [later] has, at every position of [earlier], a container of the same
    volume whose orders start with those of the container [earlier] has
    there. *)
Lemma append_to_first_extends (order : Order.t) (destination : option string)
  (earlier later : list Container.t) :
  ContainerAggregator.append_to_first order destination earlier = Some later ->
  forall i c, nth_error earlier i = Some c ->
    exists c', nth_error later i = Some c'
      /\ Container.volume c' = Container.volume c
      /\ exists tail, Container.orders c' = Container.orders c ++ tail.
Proof.
  revert later; induction earlier as [|c0 rest IH]; intros later Hplace i c Hnth;
    simpl in Hplace; [discriminate|].
  destruct (ContainerAggregator.qualifies order destination c0).
  - injection Hplace as <-.
    destruct i as [|i]; simpl in Hnth |- *.
    + injection Hnth as <-; eexists; split; [reflexivity|].
      split; [reflexivity | exists [order]; reflexivity].
    + exists c; split; [exact Hnth|].
      split; [reflexivity | exists []; rewrite app_nil_r; reflexivity].
  - destruct (ContainerAggregator.append_to_first order destination rest)
      as [rest'|]; simpl in Hplace; [|discriminate].
    injection Hplace as <-.
    destruct i as [|i]; simpl in Hnth |- *.
    + injection Hnth as <-; eexists; split; [reflexivity|].
      split; [reflexivity | exists []; rewrite app_nil_r; reflexivity].
    + apply (IH rest' eq_refl i c Hnth).
Qed.

Lemma place_order_extends (self : ContainerAggregator.t)
  (containers : containers_dict) (order : Order.t)
  (destination : option string) (earlier : list Container.t) :
  NoDup (map fst containers) ->
  dict_get destination containers = Some earlier ->
  exists later,
    dict_get destination
      (ContainerAggregator.place_order self containers order) = Some later
    /\ forall i c, nth_error earlier i = Some c ->
         exists c', nth_error later i = Some c'
           /\ Container.volume c' = Container.volume c
           /\ exists tail, Container.orders c' = Container.orders c ++ tail.
Proof.
  intros Hnd Hget.
  assert (Hsame : forall i c, nth_error earlier i = Some c ->
            exists c', nth_error earlier i = Some c'
              /\ Container.volume c' = Container.volume c
              /\ exists tail, Container.orders c' = Container.orders c ++ tail).
  { intros i c Hnth; exists c; split; [exact Hnth|].
    split; [reflexivity | exists []; rewrite app_nil_r; reflexivity]. }
  destruct (destination_eqb (Order.destination order) destination) eqn:E.
  - apply destination_eqb_eq in E; subst destination.
    rewrite place_order_bucket by exact Hnd; rewrite Hget.
    eexists; split; [reflexivity|].
    destruct (ContainerAggregator.append_to_first order
                (Order.destination order) earlier) as [later|] eqn:Hfirst.
    + eapply append_to_first_extends; exact Hfirst.
    + intros i c Hnth; exists c; split.
      * rewrite nth_error_app1; [exact Hnth|].
        apply nth_error_Some; congruence.
      * split; [reflexivity | exists []; rewrite app_nil_r; reflexivity].
  - apply destination_eqb_neq in E.
    rewrite place_order_other by congruence.
    exists earlier; split; [exact Hget | exact Hsame].
Qed.

(** Placing more orders never removes, moves or empties a container: for
    every destination, the container at each position after a part of the
    input is still at that position after the whole input, with the same
    volume and with the orders it had, in their order, at the start of its
    list. *)
Theorem prepare_containers_extends
  (self : ContainerAggregator.t) (placed more : list Order.t)
  (destination : option string) (earlier : list Container.t)
  (i : nat) (c : Container.t) :
  dict_get destination
    (snd (ContainerAggregator.prepare_containers placed self)) = Some earlier ->
  nth_error earlier i = Some c ->
  exists later c',
    dict_get destination
      (snd (ContainerAggregator.prepare_containers (placed ++ more) self)) =
    Some later
    /\ nth_error later i = Some c'
    /\ Container.volume c' = Container.volume c
    /\ exists tail, Container.orders c' = Container.orders c ++ tail.
Proof.
  pose proof (prepare_containers_keys_NoDup self placed) as Hnd.
  unfold ContainerAggregator.prepare_containers in *; simpl in *.
  rewrite fold_left_app.
  generalize dependent (fold_left (ContainerAggregator.place_order self) placed []).
  intros m Hnd; revert m Hnd earlier c.
  induction more as [|order rest IH]; intros m Hnd earlier c Hget Hnth; simpl.
  - exists earlier, c; split; [exact Hget|]; split; [exact Hnth|].
    split; [reflexivity | exists []; rewrite app_nil_r; reflexivity].
  - destruct (place_order_extends self m order destination earlier Hnd Hget)
      as (mid & Hget' & Hext).
    destruct (Hext i c Hnth) as (c1 & Hnth1 & Hvol1 & tail1 & Horders1).
    destruct (IH _ (place_order_keys_NoDup self m order Hnd) mid c1 Hget' Hnth1)
      as (later & c' & Hget'' & Hnth'' & Hvol'' & tail2 & Horders2).
    exists later, c'; split; [exact Hget''|]; split; [exact Hnth''|].
    split; [congruence|].
    exists (tail1 ++ tail2); rewrite Horders2, Horders1, app_assoc; reflexivity.
Qed.

Lemma prepare_containers_extends_witness :
  let d := Some "A"%string in
  let o1 := Order.mk [OrderItem.mk "X"%string "pen"%string 2 3] d in
  let o2 := Order.mk [OrderItem.mk "Y"%string "ink"%string 1 6] d in
  let o3 := Order.mk [OrderItem.mk "Z"%string "cup"%string 1 4] d in
  let self := ContainerAggregator.init 10 in
  exists later c',
    dict_get d (snd (ContainerAggregator.prepare_containers [o1; o2; o3] self)) =
    Some later
    /\ nth_error later 0 = Some c'
    /\ Container.volume c' = 10
    /\ exists tail, Container.orders c' = [o1] ++ tail.
Proof.
  intros d o1 o2 o3 self.
  apply (prepare_containers_extends self [o1] [o2; o3] d
           [Container.mk 10 [o1]] 0%nat (Container.mk 10 [o1]));
    reflexivity.
Defined.

(** * [add_item] and [remove_items] together *)

(** Removing an item right after adding it never raises and gives back the
    content of the pool.  It gives back the very same pool when the pool
    had no copy of the item; otherwise the copy that leaves is the earliest
    one, and the added one stays at the end. *)
Theorem add_item_remove_items
  (item : OrderItem.t) (self : OrderAggregator.t) :
  exists self' : OrderAggregator.t,
    OrderAggregator.remove_items [item]
      (fst (OrderAggregator.add_item item self)) = (self', Return tt)
    /\ Permutation (OrderAggregator.order_items self')
                   (OrderAggregator.order_items self)
    /\ (~ In item (OrderAggregator.order_items self) -> self' = self)
    /\ (forall before after,
          OrderAggregator.order_items self = before ++ item :: after ->
          ~ In item before ->
          OrderAggregator.order_items self' = before ++ after ++ [item]).
Proof.
  destruct self as [pool]; simpl.
  destruct (list_remove_In item (pool ++ [item])) as (l & Hrm & Hperm).
  { apply in_or_app; right; left; reflexivity. }
  rewrite Hrm; eexists; split; [reflexivity|]; simpl.
  split; [|split].
  - apply Permutation_cons_inv with (a := item).
    eapply perm_trans; [apply Permutation_sym, Hperm|].
    apply Permutation_sym, Permutation_cons_append.
  - intros Hnin.
    rewrite (list_remove_first item pool [] Hnin) in Hrm.
    rewrite app_nil_r in Hrm; congruence.
  - intros before after -> Hnin.
    rewrite <- app_assoc in Hrm; simpl in Hrm.
    rewrite (list_remove_first item before (after ++ [item]) Hnin) in Hrm.
    congruence.
Qed.

Lemma add_item_remove_items_witness :
  let a := OrderItem.mk "X"%string "a"%string 1 1 in
  let b := OrderItem.mk "Y"%string "b"%string 2 5 in
  exists self' : OrderAggregator.t,
    OrderAggregator.remove_items [a]
      (fst (OrderAggregator.add_item a (OrderAggregator.mk [a; b]))) =
    (self', Return tt)
    /\ OrderAggregator.order_items self' = [b; a].
Proof.
  intros a b.
  destruct (add_item_remove_items a (OrderAggregator.mk [a; b]))
    as (self' & Hcall & _ & _ & Hmoved).
  exists self'; split; [exact Hcall|].
  apply (Hmoved [] [b]); [reflexivity | intros []].
Defined.

(** * [sorted] *)

Section SortedFacts.

Variable A : Type.
Variable ltb : A -> A -> bool.

Lemma insert_sorted_Permutation (x : A) (l : list A) :
  Permutation (insert_sorted ltb x l) (x :: l).
Proof.
  induction l as [|y l IH]; simpl; [apply Permutation_refl|].
  destruct (ltb y x); [|apply Permutation_refl].
  eapply perm_trans; [apply perm_skip, IH | apply perm_swap].
Qed.

Lemma sorted_Permutation (l : list A) : Permutation (sorted ltb l) l.
Proof.
  induction l as [|x l IH]; simpl; [constructor|].
  eapply perm_trans; [apply insert_sorted_Permutation | apply perm_skip, IH].
Qed.

(** Elements that a test selects, none of them smaller than another, are in
    the output in the order they have in the input. *)
Lemma insert_sorted_filter (p : A -> bool) (x : A) (l : list A) :
  (forall y, p x = true -> p y = true -> ltb y x = false) ->
  filter p (insert_sorted ltb x l) = filter p (x :: l).
Proof.
  intros Hp; induction l as [|y l IH]; simpl; [reflexivity|].
  destruct (ltb y x) eqn:Hlt; simpl; [|reflexivity].
  simpl in IH; rewrite IH.
  destruct (p x) eqn:Hx; [|reflexivity].
  destruct (p y) eqn:Hy; [|reflexivity].
  rewrite (Hp y eq_refl Hy) in Hlt; discriminate.
Qed.

Lemma sorted_filter (p : A -> bool) (l : list A) :
  (forall x y, p x = true -> p y = true -> ltb y x = false) ->
  filter p (sorted ltb l) = filter p l.
Proof.
  intros Hp; induction l as [|x l IH]; simpl; [reflexivity|].
  rewrite insert_sorted_filter by (intros y; apply Hp).
  simpl; rewrite IH; reflexivity.
Qed.

(** On an order where "not smaller" is transitive and nothing is smaller
    both ways, no element of the output is smaller than one before it. *)
Hypothesis ltb_asym : forall x y, ltb x y = true -> ltb y x = false.
Hypothesis geb_trans :
  forall x y z, ltb y x = false -> ltb z y = false -> ltb z x = false.

Lemma insert_sorted_StronglySorted (x : A) (l : list A) :
  StronglySorted (fun a b => ltb b a = false) l ->
  StronglySorted (fun a b => ltb b a = false) (insert_sorted ltb x l).
Proof.
  induction 1 as [|y l Hsorted IH Hy]; simpl.
  - repeat constructor.
  - destruct (ltb y x) eqn:Hlt.
    + constructor; [exact IH|].
      apply Forall_forall; intros z Hz.
      apply (Permutation_in _ (insert_sorted_Permutation x l)) in Hz.
      destruct Hz as [<- | Hz]; [apply ltb_asym; exact Hlt|].
      rewrite Forall_forall in Hy; apply Hy; exact Hz.
    + constructor; [constructor; assumption|].
      constructor; [exact Hlt|].
      eapply Forall_impl; [|exact Hy].
      intros z Hz; simpl in Hz; eapply geb_trans; eassumption.
Qed.

Lemma sorted_StronglySorted (l : list A) :
  StronglySorted (fun a b => ltb b a = false) (sorted ltb l).
Proof.
  induction l as [|x l IH]; simpl; [constructor|].
  apply insert_sorted_StronglySorted; exact IH.
Qed.

End SortedFacts.

Lemma StronglySorted_weaken {A : Type} (R R' : A -> A -> Prop) (l : list A) :
  (forall a b, R a b -> R' a b) ->
  StronglySorted R l -> StronglySorted R' l.
Proof.
  intros HR; induction 1 as [|x l Hsorted IH Hx]; constructor; [exact IH|].
  eapply Forall_impl; [|exact Hx]; intros b; apply HR.
Qed.

Lemma sorted_nat_StronglySorted (l : list nat) :
  StronglySorted le (sorted Nat.ltb l).
Proof.
  apply StronglySorted_weaken with (R := fun a b => Nat.ltb b a = false).
  - intros a b H; apply Nat.ltb_ge in H; exact H.
  - apply sorted_StronglySorted.
    + intros x y H; apply Nat.ltb_lt in H; apply Nat.ltb_ge; lia.
    + intros x y z H1 H2; apply Nat.ltb_ge in H1, H2; apply Nat.ltb_ge; lia.
Qed.

(** * OOP/poker.py: properties *)

Lemma existsb_String_eqb_In (x : string) (l : list string) :
  existsb (fun y => String.eqb y x) l = true <-> In x l.
Proof.
  rewrite existsb_exists; split.
  - intros (y & Hin & Heq); apply String.eqb_eq in Heq; subst y; exact Hin.
  - intros Hin; exists x; split; [exact Hin | apply String.eqb_refl].
Qed.

Section HandFacts.

Import poker.

Lemma values_NoDup : NoDup Hand.values.
Proof.
  unfold Hand.values.
  repeat (constructor; [simpl; intuition discriminate|]).
  constructor.
Qed.

Lemma suits_NoDup : NoDup Hand.suits.
Proof.
  unfold Hand.suits.
  repeat (constructor; [simpl; intuition discriminate|]).
  constructor.
Qed.

Lemma values_count_at_most_one (self : Hand.t) :
  Forall (fun n => (n <= 1)%nat) (Hand.values_count self).
Proof.
  unfold Hand.values_count; apply Forall_forall; intros n Hin.
  apply in_map_iff in Hin; destruct Hin as (card & <- & _).
  apply (proj1 (NoDup_count_occ string_dec Hand.values) values_NoDup).
Qed.

Lemma list_eqb_eq (a b : list nat) : list_eqb a b = true -> a = b.
Proof.
  revert b; induction a as [|x a IH]; intros [|y b] H; simpl in H;
    try discriminate; [reflexivity|].
  apply andb_true_iff in H; destruct H as [Hxy Hab].
  apply Nat.eqb_eq in Hxy; subst y; f_equal; apply IH; exact Hab.
Qed.

Lemma values_count_never (self : Hand.t) (n : nat) :
  (2 <= n)%nat -> existsb (Nat.eqb n) (Hand.values_count self) = false.
Proof.
  intros Hn; destruct (existsb (Nat.eqb n) (Hand.values_count self)) eqn:E;
    [|reflexivity].
  apply existsb_exists in E; destruct E as (k & Hin & Heq).
  apply Nat.eqb_eq in Heq; subst k.
  pose proof (values_count_at_most_one self) as Hall.
  rewrite Forall_forall in Hall; specialize (Hall _ Hin); lia.
Qed.

End HandFacts.

(** The four tests that count equal values answer [False] for every hand:
    they count how often the value of a card occurs in the list [values]
    of the class, which is at most once, not how often it occurs in the
    hand. *)
Theorem hand_counting_tests_always_false (self : poker.Hand.t) :
  poker.Hand.is_pair self = false
  /\ poker.Hand.is_three_of_a_kind self = false
  /\ poker.Hand.is_four_of_a_kind self = false
  /\ poker.Hand.is_full_house self = false.
Proof.
  repeat split; try (apply values_count_never; lia).
  unfold poker.Hand.is_full_house.
  destruct (list_eqb (sorted Nat.ltb (poker.Hand.values_count self)) [2; 3]%nat)
    eqn:E; [|reflexivity].
  apply list_eqb_eq in E.
  assert (Hin : In 2%nat (poker.Hand.values_count self)).
  { apply (Permutation_in _ (sorted_Permutation nat Nat.ltb _)).
    rewrite E; left; reflexivity. }
  pose proof (values_count_at_most_one self) as Hall.
  rewrite Forall_forall in Hall; specialize (Hall _ Hin); lia.
Qed.

Section HandType.

Import poker.

Lemma list_index_In (x : string) (l : list string) :
  In x l -> exists i, list_index x l = Some i.
Proof.
  induction l as [|y l IH]; intros Hin; [destruct Hin|]; simpl.
  destruct (String.eqb y x) eqn:E; [exists O; reflexivity|].
  apply String.eqb_neq in E.
  destruct Hin as [Heq | Hin]; [contradiction|].
  destruct (IH Hin) as (i & ->); exists (S i); reflexivity.
Qed.

Lemma list_index_not_In (x : string) (l : list string) :
  ~ In x l -> list_index x l = None.
Proof.
  induction l as [|y l IH]; intros Hnin; simpl; [reflexivity|].
  destruct (String.eqb y x) eqn:E.
  - apply String.eqb_eq in E; exfalso; apply Hnin; left; exact E.
  - rewrite IH; [reflexivity | intros Hin; apply Hnin; right; exact Hin].
Qed.

Lemma list_index_nth_error (x : string) (l : list string) (i : nat) :
  list_index x l = Some i -> nth_error l i = Some x.
Proof.
  revert i; induction l as [|y l IH]; intros i H; simpl in H; [discriminate|].
  destruct (String.eqb y x) eqn:E.
  - apply String.eqb_eq in E; subst y; injection H as <-; reflexivity.
  - destruct (list_index x l) as [j|]; simpl in H; [|discriminate].
    injection H as <-; simpl; apply IH; reflexivity.
Qed.

Lemma value_indices_valid (cards : list Card.t) :
  Forall (fun card => In (Card.value card) Hand.values) cards ->
  exists indices,
    Hand.value_indices cards = Return indices
    /\ Forall2 (fun card i => list_index (Card.value card) Hand.values = Some i)
               cards indices.
Proof.
  induction 1 as [|card rest Hcard _ IH]; cbn [Hand.value_indices].
  - exists []; split; [reflexivity | constructor].
  - destruct (list_index_In _ _ Hcard) as (i & Hi); rewrite Hi.
    destruct IH as (indices & -> & Hall); cbn [bind].
    exists (i :: indices); split; [reflexivity | constructor; assumption].
Qed.

Lemma value_indices_invalid (cards : list Card.t) :
  ~ Forall (fun card => In (Card.value card) Hand.values) cards ->
  Hand.value_indices cards = Raise ValueError.
Proof.
  induction cards as [|card rest IH]; intros Hnot; cbn [Hand.value_indices].
  - exfalso; apply Hnot; constructor.
  - destruct (in_dec string_dec (Card.value card) Hand.values) as [Hin | Hnin].
    + destruct (list_index_In _ _ Hin) as (i & ->).
      rewrite IH; [reflexivity|].
      intros Hrest; apply Hnot; constructor; assumption.
    + rewrite (list_index_not_In _ _ Hnin); reflexivity.
Qed.

Lemma sorted_nonempty (l : list nat) :
  l <> [] -> sorted Nat.ltb l <> [].
Proof.
  intros Hne Heq; apply Hne.
  apply Permutation_nil.
  rewrite <- Heq; apply sorted_Permutation.
Qed.

Lemma is_straight_returns (self : Hand.t) :
  Hand.cards self <> [] ->
  Forall (fun card => In (Card.value card) Hand.values) (Hand.cards self) ->
  exists straight, Hand.is_straight self = Return straight.
Proof.
  intros Hne Hvalid; unfold Hand.is_straight.
  destruct (value_indices_valid _ Hvalid) as (indices & -> & Hall); simpl.
  destruct (sorted Nat.ltb indices) as [|first rest] eqn:Hs.
  - exfalso; apply (sorted_nonempty indices); [|exact Hs].
    intros ->; inversion Hall as [Hcards|]; apply Hne; symmetry; exact Hcards.
  - eexists; reflexivity.
Qed.

Lemma get_hand_type_cases (self : Hand.t) (straight : bool) :
  (5 <= List.length (Hand.cards self))%nat ->
  Hand.is_straight self = Return straight ->
  Hand.get_hand_type self =
  Return (Some (if straight
                then if Hand.is_flush self then "straight flush"
                     else "straight"
                else if Hand.is_flush self then "flush" else "high card")%string).
Proof.
  intros Hlen Hstraight; unfold Hand.get_hand_type, Hand.is_straight_flush.
  replace (List.length (Hand.cards self) <? 5)%nat with false
    by (symmetry; apply Nat.ltb_ge; exact Hlen).
  rewrite Hstraight; simpl.
  pose proof (values_count_never self 2) as H2.
  pose proof (values_count_never self 3) as H3.
  pose proof (values_count_never self 4) as H4.
  assert (Hfull : Hand.is_full_house self = false).
  { destruct (Hand.is_full_house self) eqn:E; [|reflexivity].
    unfold Hand.is_full_house in E; apply list_eqb_eq in E.
    assert (Hin : In 2%nat (Hand.values_count self)).
    { apply (Permutation_in _ (sorted_Permutation nat Nat.ltb _)).
      rewrite E; left; reflexivity. }
    pose proof (values_count_at_most_one self) as Hall.
    rewrite Forall_forall in Hall; specialize (Hall _ Hin); lia. }
  unfold Hand.is_four_of_a_kind, Hand.is_three_of_a_kind, Hand.is_pair.
  rewrite Hfull, H2, H3, H4 by lia.
  destruct straight, (Hand.is_flush self); reflexivity.
Qed.

End HandType.

(** What [get_hand_type] answers.  With fewer than five cards: [None].
    With five cards or more whose values are all in [values]: "straight
    flush", "flush", "straight" or "high card", as [is_straight] and
    [is_flush] tell, and never one of the four other names.  With five
    cards or more and a value that is not in [values]: [ValueError], from
    [values.index]. *)
Theorem get_hand_type_outcome (self : poker.Hand.t) :
  ((List.length (poker.Hand.cards self) < 5)%nat ->
   poker.Hand.get_hand_type self = poker.Return None)
  /\ ((5 <= List.length (poker.Hand.cards self))%nat ->
      Forall (fun card => In (poker.Card.value card) poker.Hand.values)
             (poker.Hand.cards self) ->
      exists straight,
        poker.Hand.is_straight self = poker.Return straight
        /\ poker.Hand.get_hand_type self =
           poker.Return
             (Some (if straight
                    then if poker.Hand.is_flush self then "straight flush"
                         else "straight"
                    else if poker.Hand.is_flush self then "flush"
                         else "high card")%string))
  /\ ((5 <= List.length (poker.Hand.cards self))%nat ->
      ~ Forall (fun card => In (poker.Card.value card) poker.Hand.values)
               (poker.Hand.cards self) ->
      poker.Hand.get_hand_type self = poker.Raise poker.ValueError).
Proof.
  split; [|split].
  - intros Hlen; unfold poker.Hand.get_hand_type.
    apply Nat.ltb_lt in Hlen; rewrite Hlen; reflexivity.
  - intros Hlen Hvalid.
    destruct (is_straight_returns self) as (straight & Hstraight);
      [intros Heq; rewrite Heq in Hlen; simpl in Hlen; lia | exact Hvalid |].
    exists straight; split; [exact Hstraight|].
    apply get_hand_type_cases; assumption.
  - intros Hlen Hinvalid.
    unfold poker.Hand.get_hand_type, poker.Hand.is_straight_flush,
      poker.Hand.is_straight.
    replace (List.length (poker.Hand.cards self) <? 5)%nat with false
      by (symmetry; apply Nat.ltb_ge; exact Hlen).
    rewrite (value_indices_invalid _ Hinvalid); reflexivity.
Qed.

Lemma get_hand_type_outcome_witness :
  let cards :=
    [poker.Card.mk 1 "A" "hearts"; poker.Card.mk 2 "A" "clubs";
     poker.Card.mk 3 "A" "spades"; poker.Card.mk 4 "A" "diamonds";
     poker.Card.mk 5 "9" "diamonds"]%string in
  poker.Hand.get_hand_type (poker.Hand.mk (firstn 4 cards)) = poker.Return None
  /\ (exists straight,
        poker.Hand.is_straight (poker.Hand.mk cards) = poker.Return straight
        /\ poker.Hand.get_hand_type (poker.Hand.mk cards) =
           poker.Return (Some "high card"%string))
  /\ poker.Hand.get_hand_type
       (poker.Hand.mk (poker.Card.mk 6 "1" "hearts" :: cards)) =
     poker.Raise poker.ValueError.
Proof.
  intros cards; split; [|split].
  - apply (proj1 (get_hand_type_outcome (poker.Hand.mk (firstn 4 cards)))).
    simpl; lia.
  - destruct (proj1 (proj2 (get_hand_type_outcome (poker.Hand.mk cards))))
      as (straight & Hstraight & Htype).
    + simpl; lia.
    + repeat (constructor; [apply existsb_String_eqb_In; reflexivity|]).
      constructor.
    + exists straight; split; [exact Hstraight|].
      rewrite Htype.
      vm_compute in Hstraight; injection Hstraight as <-; reflexivity.
  - apply (proj2 (proj2 (get_hand_type_outcome
                           (poker.Hand.mk (poker.Card.mk 6 "1" "hearts" :: cards))))).
    + simpl; lia.
    + intros Hall; inversion Hall as [|? ? Hbad _]; subst.
      apply existsb_String_eqb_In in Hbad; discriminate Hbad.
Defined.

Section HandCalls.

Import poker.

Lemma held_ident (card : Card.t) (cards : list Card.t) :
  existsb (fun c => Card.eqb c card) cards = true <->
  In (Card.ident card) (map Card.ident cards).
Proof.
  rewrite existsb_exists, in_map_iff; unfold Card.eqb; split.
  - intros (c & Hin & Heq); apply Nat.eqb_eq in Heq; exists c; split; assumption.
  - intros (c & Heq & Hin); exists c; split; [exact Hin | apply Nat.eqb_eq; exact Heq].
Qed.

Lemma remove_card_from_incl (card : Card.t) (cards : list Card.t) :
  incl (remove_card_from card cards) cards.
Proof.
  induction cards as [|c rest IH]; simpl; [apply incl_refl|].
  destruct (Card.eqb c card); [apply incl_tl, incl_refl|].
  apply incl_cons; [left; reflexivity | apply incl_tl, IH].
Qed.

Lemma remove_card_from_length (card : Card.t) (cards : list Card.t) :
  (List.length (remove_card_from card cards) <= List.length cards)%nat.
Proof.
  induction cards as [|c rest IH]; simpl; [lia|].
  destruct (Card.eqb c card); simpl; lia.
Qed.

Lemma remove_card_from_NoDup (card : Card.t) (cards : list Card.t) :
  NoDup (map Card.ident cards) ->
  NoDup (map Card.ident (remove_card_from card cards)).
Proof.
  induction cards as [|c rest IH]; simpl; intros Hnd; [exact Hnd|].
  inversion Hnd as [|? ? Hc Hrest]; subst.
  destruct (Card.eqb c card); [exact Hrest|].
  simpl; constructor; [|apply IH; exact Hrest].
  intros Hin; apply Hc.
  apply in_map_iff in Hin; destruct Hin as (c' & Heq & Hin).
  apply in_map_iff; exists c'; split; [exact Heq|].
  apply (remove_card_from_incl card rest); exact Hin.
Qed.

Lemma remove_card_from_last (card : Card.t) (cards : list Card.t) :
  existsb (fun c => Card.eqb c card) cards = false ->
  remove_card_from card (cards ++ [card]) = cards.
Proof.
  induction cards as [|c rest IH]; simpl; intros Hnot.
  - unfold Card.eqb; rewrite Nat.eqb_refl; reflexivity.
  - apply orb_false_iff in Hnot; destruct Hnot as [Hc Hrest].
    rewrite Hc, IH by exact Hrest; reflexivity.
Qed.

Lemma hand_call_keeps (c : Hand.call) (self : Hand.t) :
  ((List.length (Hand.cards self) <= 5)%nat
   /\ Forall (fun card => In (Card.value card) Hand.values
                          /\ In (Card.suit card) Hand.suits)
             (Hand.cards self)
   /\ NoDup (map Card.ident (Hand.cards self))) ->
  let self' :=
    match c with
    | Hand.AddCard card => fst (Hand.add_card card self)
    | Hand.RemoveCard card => fst (Hand.remove_card card self)
    end in
  (List.length (Hand.cards self') <= 5)%nat
  /\ Forall (fun card => In (Card.value card) Hand.values
                         /\ In (Card.suit card) Hand.suits)
            (Hand.cards self')
  /\ NoDup (map Card.ident (Hand.cards self')).
Proof.
  intros (Hlen & Hvalid & Hnd); destruct c as [card | card]; cbv zeta.
  - unfold Hand.add_card.
    destruct (Hand.can_add_card card self) eqn:Hcan; cbn [fst Hand.cards];
      [|tauto].
    unfold Hand.can_add_card in Hcan.
    repeat (apply andb_true_iff in Hcan; destruct Hcan as [Hcan ?]).
    match goal with H : (_ <? 5)%nat = true |- _ => apply Nat.ltb_lt in H end.
    match goal with H : negb _ = true |- _ => apply negb_true_iff in H end.
    split; [rewrite length_app; simpl; lia|]; split.
    + apply Forall_app; split; [exact Hvalid|].
      constructor; [|constructor].
      split; apply existsb_String_eqb_In; assumption.
    + rewrite map_app; cbn [map].
      apply Permutation_NoDup with (l := Card.ident card :: map Card.ident (Hand.cards self)).
      * apply Permutation_cons_append.
      * constructor; [|exact Hnd].
        intros Hin; apply held_ident in Hin; congruence.
  - unfold Hand.remove_card.
    destruct (Hand.can_remove_card card self); cbn [fst Hand.cards]; [|tauto].
    split; [|split].
    + pose proof (remove_card_from_length card (Hand.cards self)); lia.
    + rewrite Forall_forall in Hvalid |- *; intros x Hx.
      apply Hvalid, (remove_card_from_incl card _ _ Hx).
    + apply remove_card_from_NoDup; exact Hnd.
Qed.

End HandCalls.

Lemma hand_after_calls_keeps (calls : list poker.Hand.call) (self : poker.Hand.t) :
  ((List.length (poker.Hand.cards self) <= 5)%nat
   /\ Forall (fun card => In (poker.Card.value card) poker.Hand.values
                          /\ In (poker.Card.suit card) poker.Hand.suits)
             (poker.Hand.cards self)
   /\ NoDup (map poker.Card.ident (poker.Hand.cards self))) ->
  (List.length (poker.Hand.cards (poker.Hand.after calls self)) <= 5)%nat
  /\ Forall (fun card => In (poker.Card.value card) poker.Hand.values
                         /\ In (poker.Card.suit card) poker.Hand.suits)
            (poker.Hand.cards (poker.Hand.after calls self))
  /\ NoDup (map poker.Card.ident (poker.Hand.cards (poker.Hand.after calls self))).
Proof.
  unfold poker.Hand.after; revert self.
  induction calls as [|c rest IH]; intros self Hok; simpl; [exact Hok|].
  apply IH, (hand_call_keeps c self Hok).
Qed.

(** Whatever [add_card] and [remove_card] calls are made on a new hand,
    raising or not, the hand never has more than five cards, every card in
    it has a value of [values] and a suit of [suits], and no card object is
    in it twice. *)
Theorem hand_after_calls (calls : list poker.Hand.call) :
  let hand := poker.Hand.after calls poker.Hand.init in
  (List.length (poker.Hand.cards hand) <= 5)%nat
  /\ Forall (fun card => In (poker.Card.value card) poker.Hand.values
                         /\ In (poker.Card.suit card) poker.Hand.suits)
            (poker.Hand.cards hand)
  /\ NoDup (map poker.Card.ident (poker.Hand.cards hand)).
Proof.
  apply hand_after_calls_keeps; simpl.
  split; [lia|]; split; constructor.
Qed.

(** On a hand built by [add_card] and [remove_card] calls,
    [get_hand_type] never raises; it returns [None] exactly when the hand
    has fewer than five cards, and otherwise "straight flush", "flush",
    "straight" or "high card": "full house", "four of a kind", "three of a
    kind" and "pair" are never returned. *)
Theorem get_hand_type_after_calls (calls : list poker.Hand.call) :
  let hand := poker.Hand.after calls poker.Hand.init in
  exists result : option string,
    poker.Hand.get_hand_type hand = poker.Return result
    /\ (result = None <-> (List.length (poker.Hand.cards hand) < 5)%nat)
    /\ forall name, result = Some name ->
         In name ["straight flush"; "flush"; "straight"; "high card"]%string.
Proof.
  intros hand.
  destruct (hand_after_calls_keeps calls poker.Hand.init) as (Hlen & Hvalid & _);
    [simpl; split; [lia|]; split; constructor|].
  fold hand in Hlen, Hvalid.
  destruct (Nat.ltb_spec (List.length (poker.Hand.cards hand)) 5) as [Hlt | Hge].
  - exists None; split; [|split].
    + unfold poker.Hand.get_hand_type.
      apply Nat.ltb_lt in Hlt; rewrite Hlt; reflexivity.
    + tauto.
    + discriminate.
  - destruct (is_straight_returns hand) as (straight & Hstraight).
    + intros Heq; rewrite Heq in Hge; simpl in Hge; lia.
    + eapply Forall_impl; [|exact Hvalid]; intros card Hcard; apply Hcard.
    + eexists; split; [apply get_hand_type_cases; eassumption|]; split.
      * split; [discriminate | lia].
      * intros name Hname; injection Hname as <-.
        destruct straight, (poker.Hand.is_flush hand); simpl; tauto.
Qed.

(** A card that [add_card] accepted can be taken out again: [remove_card]
    of it right away does not raise and gives back the hand as it was. *)
Theorem add_card_remove_card
  (card : poker.Card.t) (self self' : poker.Hand.t) :
  poker.Hand.add_card card self = (self', poker.Return tt) ->
  poker.Hand.remove_card card self' = (self, poker.Return tt).
Proof.
  unfold poker.Hand.add_card.
  destruct (poker.Hand.can_add_card card self) eqn:Hcan; [|discriminate].
  intros Hadd; injection Hadd as <-.
  unfold poker.Hand.can_add_card in Hcan.
  apply andb_true_iff in Hcan; destruct Hcan as [_ Hnew].
  apply negb_true_iff in Hnew.
  unfold poker.Hand.remove_card, poker.Hand.can_remove_card; simpl.
  rewrite existsb_app; simpl.
  unfold poker.Card.eqb at 2; rewrite Nat.eqb_refl, orb_true_r.
  rewrite remove_card_from_last by exact Hnew.
  destruct self; reflexivity.
Qed.

Lemma add_card_remove_card_witness :
  let card := poker.Card.mk 1 "Q" "spades" in
  poker.Hand.remove_card card (poker.Hand.mk [card]) =
  (poker.Hand.init, poker.Return tt).
Proof.
  intros card.
  apply (add_card_remove_card card poker.Hand.init (poker.Hand.mk [card])).
  reflexivity.
Defined.

(** ** [is_flush] and [is_straight] *)

Lemma nodup_all_equal (s : string) (l : list string) :
  l <> [] -> Forall (fun x => x = s) l -> nodup string_dec l = [s].
Proof.
  induction l as [|x l IH]; intros Hne Hall; [contradiction|].
  inversion Hall as [|? ? Hx Hrest]; subst; simpl.
  destruct (in_dec string_dec s l) as [Hin | Hnin].
  - apply IH; [intros ->; destruct Hin | exact Hrest].
  - destruct l as [|y l]; [reflexivity|].
    exfalso; apply Hnin; left.
    inversion Hrest; subst; reflexivity.
Qed.

(** [is_flush] answers [True] exactly for a hand that is not empty and
    whose cards all have one suit. *)
Theorem is_flush_one_suit (self : poker.Hand.t) :
  poker.Hand.is_flush self = true <->
  poker.Hand.cards self <> []
  /\ exists suit,
       Forall (fun card => poker.Card.suit card = suit) (poker.Hand.cards self).
Proof.
  unfold poker.Hand.is_flush; rewrite Nat.eqb_eq; split.
  - intros Hlen.
    destruct (nodup string_dec (map poker.Card.suit (poker.Hand.cards self)))
      as [|s [|? ?]] eqn:Hnodup; try discriminate.
    split.
    + intros Heq; rewrite Heq in Hnodup; discriminate.
    + exists s; apply Forall_forall; intros card Hcard.
      assert (Hin : In (poker.Card.suit card)
                       (nodup string_dec
                          (map poker.Card.suit (poker.Hand.cards self)))).
      { apply nodup_In, in_map; exact Hcard. }
      rewrite Hnodup in Hin; destruct Hin as [<- | []]; reflexivity.
  - intros (Hne & s & Hall).
    rewrite (nodup_all_equal s); [reflexivity | |].
    + intros Heq; apply map_eq_nil in Heq; contradiction.
    + apply Forall_forall; intros x Hx.
      apply in_map_iff in Hx; destruct Hx as (card & <- & Hcard).
      rewrite Forall_forall in Hall; apply Hall; exact Hcard.
Qed.

Lemma nodup_length_le (l : list nat) :
  (List.length (nodup Nat.eq_dec l) <= List.length l)%nat.
Proof.
  induction l as [|x l IH]; simpl; [lia|].
  destruct (in_dec Nat.eq_dec x l); simpl; lia.
Qed.

Lemma nodup_length_NoDup (l : list nat) :
  List.length (nodup Nat.eq_dec l) = List.length l -> NoDup l.
Proof.
  induction l as [|x l IH]; simpl; intros Hlen; [constructor|].
  destruct (in_dec Nat.eq_dec x l) as [Hin | Hnin]; simpl in Hlen.
  - pose proof (nodup_length_le l); lia.
  - constructor; [exact Hnin | apply IH; lia].
Qed.

(** Five sorted integers: the largest is the smallest plus four and all
    five differ exactly when they are five consecutive integers. *)
Lemma straight_test (l : list nat) :
  List.length l = 5%nat ->
  (exists first rest,
     sorted Nat.ltb l = first :: rest
     /\ ((Z.of_nat (last (sorted Nat.ltb l) O) - Z.of_nat first =? 4)
         && (List.length (nodup Nat.eq_dec (sorted Nat.ltb l)) =? 5)%nat
         = true
         <-> exists m, Permutation l (seq m 5))).
Proof.
  intros Hlen.
  pose proof (sorted_Permutation nat Nat.ltb l) as Hperm.
  pose proof (sorted_nat_StronglySorted l) as Hsorted.
  pose proof (Permutation_length Hperm) as Hlen'; rewrite Hlen in Hlen'.
  destruct (sorted Nat.ltb l) as [|a [|b [|c [|d [|e [|? ?]]]]]];
    try discriminate Hlen'.
  exists a, [b; c; d; e]; split; [reflexivity|].
  assert (Hle : (a <= b /\ b <= c /\ c <= d /\ d <= e)%nat).
  { repeat match goal with
           | H : StronglySorted _ (_ :: _) |- _ =>
               apply StronglySorted_inv in H; destruct H
           | H : Forall _ (_ :: _) |- _ => inversion H; clear H; subst
           end.
    lia. }
  clear Hsorted; cbn [last].
  rewrite andb_true_iff, Z.eqb_eq, Nat.eqb_eq; split.
  - intros [Hspan Hdistinct].
    apply nodup_length_NoDup in Hdistinct.
    assert (Hne : a <> b /\ b <> c /\ c <> d /\ d <> e).
    { repeat match goal with
             | H : NoDup (_ :: _) |- _ => inversion H; clear H; subst
             end.
      simpl in *; intuition. }
    exists a.
    replace (seq a 5) with [a; b; c; d; e];
      [apply Permutation_sym; exact Hperm|].
    simpl; repeat f_equal; lia.
  - intros (m & Hm).
    assert (Hperm' : Permutation [a; b; c; d; e] (seq m 5))
      by (eapply perm_trans; eassumption).
    assert (Hnd : NoDup [a; b; c; d; e])
      by (apply (Permutation_NoDup (Permutation_sym Hperm')), seq_NoDup).
    assert (Hrange : forall x, In x [a; b; c; d; e] -> (m <= x < m + 5)%nat).
    { intros x Hx; apply (Permutation_in _ Hperm') in Hx.
      apply in_seq in Hx; lia. }
    pose proof (Hrange a (or_introl eq_refl)) as Ha.
    pose proof (Hrange e (or_intror (or_intror (or_intror (or_intror
                  (or_introl eq_refl)))))) as He.
    assert (Hne : a <> b /\ b <> c /\ c <> d /\ d <> e).
    { clear Hrange Hperm' Hperm.
      repeat match goal with
             | H : NoDup (_ :: _) |- _ => inversion H; clear H; subst
             end.
      simpl in *; intuition. }
    split; [lia|].
    rewrite nodup_fixed_point by exact Hnd; reflexivity.
Qed.

Section Straight.

Import poker.

Let position (v : string) : nat :=
  match list_index v Hand.values with
  | Some i => i
  | None => O
  end.

Let value_at (i : nat) : string := nth i Hand.values EmptyString.

Lemma indices_to_values (cards : list Card.t) (indices : list nat) :
  Forall2 (fun card i => list_index (Card.value card) Hand.values = Some i)
          cards indices ->
  map value_at indices = map Card.value cards
  /\ map position (map Card.value cards) = indices
  /\ Forall (fun i => (i < 13)%nat) indices.
Proof.
  induction 1 as [|card i cards indices Hi _ (IH1 & IH2 & IH3)].
  - repeat split; constructor.
  - pose proof (list_index_nth_error _ _ _ Hi) as Hnth.
    cbn [map]; rewrite IH1, IH2; repeat split.
    + f_equal; unfold value_at; apply nth_error_nth; exact Hnth.
    + f_equal; unfold position; rewrite Hi; reflexivity.
    + constructor; [|exact IH3].
      change 13%nat with (List.length Hand.values).
      apply nth_error_Some; congruence.
Qed.

Lemma consecutive_values (m : nat) :
  (m + 5 <= 13)%nat ->
  map value_at (seq m 5) = firstn 5 (skipn m Hand.values)
  /\ map position (firstn 5 (skipn m Hand.values)) = seq m 5.
Proof.
  intros Hm.
  do 9 (destruct m as [|m]; [split; reflexivity|]).
  lia.
Qed.

Lemma is_straight_five (self : Hand.t) :
  List.length (Hand.cards self) = 5%nat ->
  Forall (fun card => In (Card.value card) Hand.values) (Hand.cards self) ->
  (Hand.is_straight self = Return true <->
   exists m, (m + 5 <= 13)%nat
     /\ Permutation (map Card.value (Hand.cards self))
                    (firstn 5 (skipn m Hand.values))).
Proof.
  intros Hlen Hvalid; unfold Hand.is_straight.
  destruct (value_indices_valid _ Hvalid) as (indices & -> & Hall); cbn [bind].
  destruct (indices_to_values _ _ Hall) as (Hvalues & Hpositions & Hrange).
  assert (Hlen' : List.length indices = 5%nat)
    by (rewrite <- (Forall2_length Hall); exact Hlen).
  destruct (straight_test indices Hlen') as (first & rest & Hs & Hiff).
  rewrite Hs in Hiff |- *.
  split.
  - intros Htest; injection Htest as Htest.
    destruct (proj1 Hiff Htest) as (m & Hm).
    assert (Hbound : (m + 5 <= 13)%nat).
    { assert (Hin : In (m + 4)%nat indices).
      { apply (Permutation_in _ (Permutation_sym Hm)), in_seq; lia. }
      rewrite Forall_forall in Hrange; specialize (Hrange _ Hin); lia. }
    exists m; split; [exact Hbound|].
    rewrite <- Hvalues, <- (proj1 (consecutive_values m Hbound)).
    apply Permutation_map; exact Hm.
  - intros (m & Hbound & Hm).
    f_equal; apply Hiff; exists m.
    rewrite <- Hpositions, <- (proj2 (consecutive_values m Hbound)).
    apply Permutation_map; exact Hm.
Qed.

End Straight.

(** For a hand of five cards with values of [values], [is_straight] answers
    [True] exactly when the values of the cards are, in some order, five
    values that follow one another in
    ["2"; "3"; ...; "10"; "J"; "Q"; "K"; "A"] (so "A" only counts as the
    highest). *)
Theorem is_straight_five_cards (self : poker.Hand.t) :
  List.length (poker.Hand.cards self) = 5%nat ->
  Forall (fun card => In (poker.Card.value card) poker.Hand.values)
         (poker.Hand.cards self) ->
  (poker.Hand.is_straight self = poker.Return true <->
   exists m, (m + 5 <= 13)%nat
     /\ Permutation (map poker.Card.value (poker.Hand.cards self))
                    (firstn 5 (skipn m poker.Hand.values))).
Proof. exact (is_straight_five self). Qed.

Lemma is_straight_five_cards_witness :
  let cards :=
    [poker.Card.mk 1 "K" "hearts"; poker.Card.mk 2 "J" "clubs";
     poker.Card.mk 3 "10" "spades"; poker.Card.mk 4 "Q" "diamonds";
     poker.Card.mk 5 "A" "diamonds"]%string in
  poker.Hand.is_straight (poker.Hand.mk cards) = poker.Return true.
Proof.
  intros cards.
  apply (is_straight_five_cards (poker.Hand.mk cards)).
  - reflexivity.
  - repeat (constructor; [apply existsb_String_eqb_In; reflexivity|]).
    constructor.
  - exists 8%nat; split; [lia|].
    simpl.
    eapply perm_trans;
      [apply (Permutation_middle ["J"; "10"; "Q"] ["A"] "K")%string
      | apply perm_swap].
Defined.

(** * OOP/zoo.py: properties *)

(** ** The order of strings *)

Lemma string_compare_refl (s : string) : String.compare s s = Eq.
Proof.
  pose proof (String.compare_antisym s s) as H.
  destruct (String.compare s s); simpl in H; congruence.
Qed.

Lemma string_compare_trans (x y z : string) :
  String.compare x y = Lt -> String.compare y z = Lt -> String.compare x z = Lt.
Proof.
  revert y z; induction x as [|a x IH]; intros [|b y] [|c z]; simpl;
    try congruence.
  unfold Ascii.compare.
  destruct (N.compare_spec (Ascii.N_of_ascii a) (Ascii.N_of_ascii b)) as [Hab|Hab|Hab];
    destruct (N.compare_spec (Ascii.N_of_ascii b) (Ascii.N_of_ascii c)) as [Hbc|Hbc|Hbc];
    try congruence; intros H1 H2.
  - rewrite Hab, Hbc, N.compare_refl; eapply IH; eassumption.
  - rewrite Hab; apply N.compare_lt_iff in Hbc; rewrite Hbc; reflexivity.
  - rewrite <- Hbc; apply N.compare_lt_iff in Hab; rewrite Hab; reflexivity.
  - assert (Hac : (Ascii.N_of_ascii a < Ascii.N_of_ascii c)%N) by lia.
    apply N.compare_lt_iff in Hac; rewrite Hac; reflexivity.
Qed.

Lemma string_ltb_asym (x y : string) :
  String.ltb x y = true -> String.ltb y x = false.
Proof.
  unfold String.ltb; rewrite (String.compare_antisym y x).
  destruct (String.compare x y); simpl; congruence.
Qed.

Lemma string_geb_trans (x y z : string) :
  String.ltb y x = false -> String.ltb z y = false -> String.ltb z x = false.
Proof.
  unfold String.ltb; intros Hyx Hzy.
  destruct (String.compare z x) eqn:Hzx; try reflexivity.
  exfalso.
  destruct (String.compare y x) eqn:Eyx; try discriminate.
  - apply String.compare_eq_iff in Eyx; subst y.
    rewrite Hzx in Hzy; discriminate.
  - assert (Hxy : String.compare x y = Lt)
      by (rewrite String.compare_antisym, Eyx; reflexivity).
    rewrite (string_compare_trans z x y Hzx Hxy) in Hzy; discriminate.
Qed.

(** ** The sorted views *)

(** [get_animals_by_age] returns the animals of the zoo, each once, from
    younger to older; animals of the same age are in the order they have in
    the zoo. *)
Theorem get_animals_by_age_sorted (self : zoo.Zoo.t) :
  let result := zoo.Zoo.get_animals_by_age self in
  Permutation result (zoo.Zoo.animals self)
  /\ StronglySorted (fun a b => zoo.Animal.age a <= zoo.Animal.age b) result
  /\ forall k,
       filter (fun a => zoo.Animal.age a =? k) result =
       filter (fun a => zoo.Animal.age a =? k) (zoo.Zoo.animals self).
Proof.
  unfold zoo.Zoo.get_animals_by_age; cbv zeta; split; [|split].
  - apply sorted_Permutation.
  - apply StronglySorted_weaken
      with (R := fun a b => (zoo.Animal.age b <? zoo.Animal.age a) = false).
    + intros a b H; apply Z.ltb_ge in H; exact H.
    + apply sorted_StronglySorted.
      * intros x y H; apply Z.ltb_lt in H; apply Z.ltb_ge; lia.
      * intros x y z H1 H2; apply Z.ltb_ge in H1, H2; apply Z.ltb_ge; lia.
  - intros k; apply sorted_filter.
    intros x y Hx Hy; apply Z.eqb_eq in Hx, Hy; apply Z.ltb_ge; lia.
Qed.

(** [get_animals_sorted_alphabetically] returns the animals of the zoo,
    each once, so that no animal has a name smaller than that of an animal
    before it; animals of the same name are in the order they have in the
    zoo. *)
Theorem get_animals_sorted_alphabetically_sorted (self : zoo.Zoo.t) :
  let result := zoo.Zoo.get_animals_sorted_alphabetically self in
  Permutation result (zoo.Zoo.animals self)
  /\ StronglySorted
       (fun a b => String.ltb (zoo.Animal.name b) (zoo.Animal.name a) = false)
       result
  /\ forall n,
       filter (fun a => String.eqb (zoo.Animal.name a) n) result =
       filter (fun a => String.eqb (zoo.Animal.name a) n) (zoo.Zoo.animals self).
Proof.
  unfold zoo.Zoo.get_animals_sorted_alphabetically; cbv zeta; split; [|split].
  - apply sorted_Permutation.
  - apply (sorted_StronglySorted zoo.Animal.t
             (fun a b => String.ltb (zoo.Animal.name a) (zoo.Animal.name b))).
    + intros x y; apply string_ltb_asym.
    + intros x y z; apply string_geb_trans.
  - intros n; apply sorted_filter.
    intros x y Hx Hy; apply String.eqb_eq in Hx, Hy.
    rewrite Hx, Hy; unfold String.ltb; rewrite string_compare_refl; reflexivity.
Qed.

(** ** Adding and removing animals *)

Section ZooCalls.

Import zoo.

Lemma remove_animal_from_incl (animal : Animal.t) (animals : list Animal.t) :
  incl (remove_animal_from animal animals) animals.
Proof.
  induction animals as [|a rest IH]; simpl; [apply incl_refl|].
  destruct (Animal.eqb a animal); [apply incl_tl, incl_refl|].
  apply incl_cons; [left; reflexivity | apply incl_tl, IH].
Qed.

Lemma remove_animal_from_length (animal : Animal.t) (animals : list Animal.t) :
  (List.length (remove_animal_from animal animals) <= List.length animals)%nat.
Proof.
  induction animals as [|a rest IH]; simpl; [lia|].
  destruct (Animal.eqb a animal); simpl; lia.
Qed.

Lemma remove_animal_from_NoDup {B : Type} (f : Animal.t -> B)
  (animal : Animal.t) (animals : list Animal.t) :
  NoDup (map f animals) -> NoDup (map f (remove_animal_from animal animals)).
Proof.
  induction animals as [|a rest IH]; simpl; intros Hnd; [exact Hnd|].
  inversion Hnd as [|? ? Ha Hrest]; subst.
  destruct (Animal.eqb a animal); [exact Hrest|].
  simpl; constructor; [|apply IH; exact Hrest].
  intros Hin; apply Ha.
  apply in_map_iff in Hin; destruct Hin as (a' & Heq & Hin).
  apply in_map_iff; exists a'; split; [exact Heq|].
  apply (remove_animal_from_incl animal rest); exact Hin.
Qed.

Lemma remove_animal_from_last (animal : Animal.t) (animals : list Animal.t) :
  existsb (fun a => Animal.eqb a animal) animals = false ->
  remove_animal_from animal (animals ++ [animal]) = animals.
Proof.
  induction animals as [|a rest IH]; simpl; intros Hnot.
  - unfold Animal.eqb; rewrite Nat.eqb_refl; reflexivity.
  - apply orb_false_iff in Hnot; destruct Hnot as [Ha Hrest].
    rewrite Ha, IH by exact Hrest; reflexivity.
Qed.

Lemma NoDup_snoc {B : Type} (l : list B) (x : B) :
  NoDup l -> ~ In x l -> NoDup (l ++ [x]).
Proof.
  intros Hnd Hnin.
  apply Permutation_NoDup with (l := x :: l);
    [apply Permutation_cons_append | constructor; assumption].
Qed.

Lemma zoo_call_keeps (c : Zoo.call) (self : Zoo.t) :
  (Z.of_nat (List.length (Zoo.animals self))
   <= Z.max 0 (Zoo.max_number_of_animals self)
   /\ NoDup (map (fun a => (Animal.name a, Animal.species a)) (Zoo.animals self))
   /\ NoDup (map Animal.ident (Zoo.animals self))) ->
  let self' :=
    match c with
    | Zoo.AddAnimal animal => fst (Zoo.add_animal animal self)
    | Zoo.RemoveAnimal animal => fst (Zoo.remove_animal animal self)
    end in
  Zoo.name self' = Zoo.name self
  /\ Zoo.max_number_of_animals self' = Zoo.max_number_of_animals self
  /\ Z.of_nat (List.length (Zoo.animals self'))
     <= Z.max 0 (Zoo.max_number_of_animals self)
  /\ NoDup (map (fun a => (Animal.name a, Animal.species a)) (Zoo.animals self'))
  /\ NoDup (map Animal.ident (Zoo.animals self')).
Proof.
  intros (Hlen & Hpairs & Hids); destruct c as [animal | animal]; cbv zeta.
  - unfold Zoo.add_animal.
    destruct (Zoo.can_add_animal animal self) eqn:Hcan; cbn [fst];
      [|repeat split; assumption].
    unfold Zoo.can_add_animal in Hcan.
    apply andb_true_iff in Hcan; destruct Hcan as [Hcan Hpair].
    apply andb_true_iff in Hcan; destruct Hcan as [Hroom Hid].
    apply Z.ltb_lt in Hroom.
    apply negb_true_iff in Hid, Hpair.
    cbn [Zoo.name Zoo.max_number_of_animals Zoo.animals].
    split; [reflexivity|]; split; [reflexivity|]; split; [|split].
    + rewrite length_app; simpl; lia.
    + rewrite map_app; cbn [map]; apply NoDup_snoc; [exact Hpairs|].
      intros Hin; apply in_map_iff in Hin; destruct Hin as (a & Heq & Hin).
      injection Heq as Hname Hspecies.
      assert (Hex : existsb
                (fun existing_animal =>
                   String.eqb (Animal.name existing_animal) (Animal.name animal)
                   && String.eqb (Animal.species existing_animal)
                                 (Animal.species animal))
                (Zoo.animals self) = true).
      { apply existsb_exists; exists a; split; [exact Hin|].
        rewrite Hname, Hspecies, !String.eqb_refl; reflexivity. }
      congruence.
    + rewrite map_app; cbn [map]; apply NoDup_snoc; [exact Hids|].
      intros Hin; apply in_map_iff in Hin; destruct Hin as (a & Heq & Hin).
      assert (Hex : existsb (fun a => Animal.eqb a animal) (Zoo.animals self) = true).
      { apply existsb_exists; exists a; split; [exact Hin|].
        unfold Animal.eqb; apply Nat.eqb_eq; exact Heq. }
      congruence.
  - unfold Zoo.remove_animal.
    destruct (Zoo.can_remove_animal animal self); cbn [fst];
      [|repeat split; assumption].
    cbn [Zoo.name Zoo.max_number_of_animals Zoo.animals].
    split; [reflexivity|]; split; [reflexivity|]; split; [|split].
    + pose proof (remove_animal_from_length animal (Zoo.animals self)); lia.
    + apply remove_animal_from_NoDup; exact Hpairs.
    + apply remove_animal_from_NoDup; exact Hids.
Qed.

End ZooCalls.

Lemma zoo_after_calls_keeps (calls : list zoo.Zoo.call) (self : zoo.Zoo.t) :
  (Z.of_nat (List.length (zoo.Zoo.animals self))
   <= Z.max 0 (zoo.Zoo.max_number_of_animals self)
   /\ NoDup (map (fun a => (zoo.Animal.name a, zoo.Animal.species a))
                 (zoo.Zoo.animals self))
   /\ NoDup (map zoo.Animal.ident (zoo.Zoo.animals self))) ->
  zoo.Zoo.name (zoo.Zoo.after calls self) = zoo.Zoo.name self
  /\ zoo.Zoo.max_number_of_animals (zoo.Zoo.after calls self) =
     zoo.Zoo.max_number_of_animals self
  /\ Z.of_nat (List.length (zoo.Zoo.animals (zoo.Zoo.after calls self)))
     <= Z.max 0 (zoo.Zoo.max_number_of_animals self)
  /\ NoDup (map (fun a => (zoo.Animal.name a, zoo.Animal.species a))
                (zoo.Zoo.animals (zoo.Zoo.after calls self)))
  /\ NoDup (map zoo.Animal.ident (zoo.Zoo.animals (zoo.Zoo.after calls self))).
Proof.
  unfold zoo.Zoo.after; revert self.
  induction calls as [|c rest IH]; intros self Hok; simpl.
  - split; [reflexivity|]; split; [reflexivity | exact Hok].
  - destruct (zoo_call_keeps c self Hok) as (Hname & Hmax & Hlen & Hpairs & Hids).
    cbv zeta in Hname, Hmax, Hlen, Hpairs, Hids.
    rewrite <- Hname, <- Hmax.
    apply IH; rewrite Hmax; repeat split; assumption.
Qed.

(** Whatever [add_animal] and [remove_animal] calls are made on a new zoo,
    its name and its limit stay, it never has more animals than the limit
    (none when the limit is negative), no two of its animals have the same
    name and species, and no animal object is in it twice. *)
Theorem zoo_after_calls
  (name : string) (max_number_of_animals : Z) (calls : list zoo.Zoo.call) :
  let z := zoo.Zoo.after calls (zoo.Zoo.init name max_number_of_animals) in
  zoo.Zoo.name z = name
  /\ zoo.Zoo.max_number_of_animals z = max_number_of_animals
  /\ Z.of_nat (List.length (zoo.Zoo.animals z)) <= Z.max 0 max_number_of_animals
  /\ NoDup (map (fun a => (zoo.Animal.name a, zoo.Animal.species a))
                (zoo.Zoo.animals z))
  /\ NoDup (map zoo.Animal.ident (zoo.Zoo.animals z)).
Proof.
  apply (zoo_after_calls_keeps calls (zoo.Zoo.init name max_number_of_animals)).
  simpl; split; [lia|]; split; constructor.
Qed.

(** An animal that [add_animal] took in can be taken out again:
    [remove_animal] of it right away gives back the zoo as it was and
    prints that the animal has been removed. *)
Theorem add_animal_remove_animal (animal : zoo.Animal.t) (self : zoo.Zoo.t) :
  zoo.Zoo.can_add_animal animal self = true ->
  zoo.Zoo.remove_animal animal (fst (zoo.Zoo.add_animal animal self)) =
  (self,
   [(zoo.Animal.name animal ++ " (" ++ zoo.Animal.species animal
     ++ ") has been removed from " ++ zoo.Zoo.name self ++ ".")%string]).
Proof.
  intros Hcan; unfold zoo.Zoo.add_animal; rewrite Hcan; cbn [fst].
  unfold zoo.Zoo.can_add_animal in Hcan.
  apply andb_true_iff in Hcan; destruct Hcan as [Hcan _].
  apply andb_true_iff in Hcan; destruct Hcan as [_ Hid].
  apply negb_true_iff in Hid.
  unfold zoo.Zoo.remove_animal, zoo.Zoo.can_remove_animal.
  cbn [zoo.Zoo.animals zoo.Zoo.name zoo.Zoo.max_number_of_animals].
  rewrite existsb_app; cbn [existsb].
  unfold zoo.Animal.eqb at 2; rewrite Nat.eqb_refl, orb_true_r; cbn [orb].
  rewrite remove_animal_from_last by exact Hid.
  destruct self; reflexivity.
Qed.

Lemma add_animal_remove_animal_witness :
  let leo := zoo.Animal.mk 1 "Leo" "lion" 7 in
  let z := zoo.Zoo.init "Tallinn Zoo" 2 in
  zoo.Zoo.remove_animal leo (fst (zoo.Zoo.add_animal leo z)) =
  (z, ["Leo (lion) has been removed from Tallinn Zoo."%string]).
Proof.
  intros leo z.
  apply (add_animal_remove_animal leo z).
  reflexivity.
Defined.

(** * The assertions of OOP/poker.py *)

(** The two complete assertions of the main block of the file, run on the
    model. *)
Example main_straight :
  let cards :=
    [poker.Card.mk 1 "2" "diamonds"; poker.Card.mk 2 "4" "spades";
     poker.Card.mk 3 "5" "clubs"; poker.Card.mk 4 "3" "diamonds";
     poker.Card.mk 5 "6" "hearts"]%string in
  let hand :=
    poker.Hand.after (map poker.Hand.AddCard cards) poker.Hand.init in
  poker.Hand.get_cards hand = cards
  /\ poker.Hand.get_hand_type hand = poker.Return (Some "straight"%string).
Proof. split; reflexivity. Qed.

Example main_flush :
  let cards :=
    [poker.Card.mk 1 "10" "diamonds"; poker.Card.mk 2 "2" "diamonds";
     poker.Card.mk 3 "A" "diamonds"; poker.Card.mk 4 "6" "diamonds";
     poker.Card.mk 5 "9" "diamonds"]%string in
  let hand :=
    poker.Hand.after (map poker.Hand.AddCard cards) poker.Hand.init in
  poker.Hand.get_hand_type hand = poker.Return (Some "flush"%string)
  /\ poker.Hand.repr hand =
     poker.Return
       ("I got a flush with cards: 10 of diamonds, 2 of diamonds, "
        ++ "A of diamonds, 6 of diamonds, 9 of diamonds")%string.
Proof. split; reflexivity. Qed.

(** * [remove_items] given the pool itself *)

Section OwnList.

Import OrderAggregator.

Lemma remove_pool_items_returns (steps index : nat) (self : t) :
  snd (remove_pool_items steps index self) = Return tt.
Proof.
  revert index self; induction steps as [|steps IH]; intros index [pool];
    simpl; [reflexivity|].
  destruct (nth_error pool index) as [item|] eqn:Hnth; [|reflexivity].
  destruct (list_remove_In item pool (nth_error_In _ _ Hnth)) as (l & -> & _).
  apply IH.
Qed.

Lemma list_remove_length (x : OrderItem.t) (l l' : list OrderItem.t) :
  list_remove x l = Some l' -> List.length l = S (List.length l').
Proof.
  intros Hrm; destruct (list_remove_Some _ _ _ Hrm) as (l1 & l2 & -> & -> & _).
  rewrite !length_app; simpl; lia.
Qed.

(** The loop ends when the index has caught up with the shrinking list. *)
Lemma remove_pool_items_length (steps index : nat) (self : t) :
  (List.length (order_items self) <= steps + index)%nat ->
  List.length (order_items (fst (remove_pool_items steps index self))) =
  (List.length (order_items self)
   - (List.length (order_items self) - index + 1) / 2)%nat.
Proof.
  revert index self; induction steps as [|steps IH]; intros index [pool] Hsteps;
    cbn [remove_pool_items order_items fst] in Hsteps |- *.
  - replace (List.length pool - index + 1)%nat with 1%nat by lia.
    change (1 / 2)%nat with O; lia.
  - destruct (nth_error pool index) as [item|] eqn:Hnth.
    + assert (Hlt : (index < List.length pool)%nat)
        by (apply nth_error_Some; congruence).
      destruct (list_remove_In item pool (nth_error_In _ _ Hnth))
        as (l & Hrm & _).
      rewrite Hrm; pose proof (list_remove_length _ _ _ Hrm) as Hlen.
      rewrite IH by (cbn [order_items]; lia); cbn [order_items].
      pose proof (Nat.div_mod_eq (List.length l - S index + 1) 2).
      pose proof (Nat.div_mod_eq (List.length pool - index + 1) 2).
      pose proof (Nat.mod_upper_bound (List.length l - S index + 1) 2
                    ltac:(lia)).
      pose proof (Nat.mod_upper_bound (List.length pool - index + 1) 2
                    ltac:(lia)).
      lia.
    + apply nth_error_None in Hnth; cbn [fst order_items].
      replace (List.length pool - index + 1)%nat with 1%nat by lia.
      change (1 / 2)%nat with O; lia.
Qed.

(** More steps than the pool has items change nothing: the loop has ended
    by itself. *)
Lemma remove_pool_items_steps (steps steps' index : nat) (self : t) :
  (List.length (order_items self) <= steps + index)%nat ->
  (steps <= steps')%nat ->
  remove_pool_items steps' index self = remove_pool_items steps index self.
Proof.
  revert steps' index self; induction steps as [|steps IH];
    intros steps' index [pool] Hsteps Hle; simpl in Hsteps.
  - destruct steps' as [|steps']; [reflexivity|]; simpl.
    replace (nth_error pool index) with (@None OrderItem.t); [reflexivity|].
    symmetry; apply nth_error_None; lia.
  - destruct steps' as [|steps']; [lia|]; simpl.
    destruct (nth_error pool index) as [item|] eqn:Hnth; [|reflexivity].
    destruct (list_remove item pool) as [l|] eqn:Hrm; [|reflexivity].
    pose proof (list_remove_length _ _ _ Hrm) as Hlen.
    apply IH; simpl; lia.
Qed.

(** With items that differ from one another, the items the index passes
    over stay in front and every second item of the rest joins them. *)
Lemma remove_pool_items_distinct (steps : nat) (kept rest : list OrderItem.t) :
  (List.length rest <= steps)%nat ->
  NoDup (kept ++ rest) ->
  remove_pool_items steps (List.length kept) (mk (kept ++ rest)) =
  (mk (kept ++ every_second rest), Return tt).
Proof.
  revert kept rest; induction steps as [|steps IH]; intros kept rest Hlen Hnd.
  - destruct rest; [reflexivity | simpl in Hlen; lia].
  - cbn [remove_pool_items order_items].
    destruct rest as [|x [|y rest]].
    + replace (nth_error (kept ++ []) (List.length kept))
        with (@None OrderItem.t); [reflexivity|].
      symmetry; apply nth_error_None; rewrite app_nil_r; lia.
    + rewrite nth_error_app2, Nat.sub_diag by lia; cbn [nth_error].
      rewrite list_remove_first
        by (apply NoDup_remove_2 in Hnd; rewrite app_nil_r in Hnd; exact Hnd).
      destruct steps as [|steps]; [reflexivity|].
      cbn [remove_pool_items order_items].
      replace (nth_error (kept ++ []) (S (List.length kept)))
        with (@None OrderItem.t); [reflexivity|].
      symmetry; apply nth_error_None; rewrite app_nil_r; lia.
    + rewrite nth_error_app2, Nat.sub_diag by lia; cbn [nth_error].
      rewrite list_remove_first
        by (pose proof (NoDup_remove_2 _ _ _ Hnd) as Hx;
            intros Hin; apply Hx, in_or_app; left; exact Hin).
      apply NoDup_remove_1 in Hnd.
      replace (kept ++ y :: rest) with ((kept ++ [y]) ++ rest) in Hnd |- *
        by (rewrite <- app_assoc; reflexivity).
      replace (S (List.length kept)) with (List.length (kept ++ [y]))
        by (rewrite length_app; simpl; lia).
      rewrite IH by (simpl in Hlen; lia || exact Hnd).
      cbn [every_second]; rewrite <- app_assoc; reflexivity.
Qed.

End OwnList.

(** Given the pool itself, [remove_items] never raises and ends by itself,
    but it removes only every other item: of [n] items it leaves [n / 2],
    and when the items differ from one another these are the items at the
    second, fourth, sixth, ... place, in their order. *)
Theorem remove_items_of_the_pool (self : OrderAggregator.t) :
  exists self' : OrderAggregator.t,
    OrderAggregator.remove_items_call OrderAggregator.PoolList self =
    (self', Return tt)
    /\ List.length (OrderAggregator.order_items self') =
       (List.length (OrderAggregator.order_items self) / 2)%nat
    /\ (NoDup (OrderAggregator.order_items self) ->
        OrderAggregator.order_items self' =
        every_second (OrderAggregator.order_items self))
    /\ (forall steps,
          (List.length (OrderAggregator.order_items self) <= steps)%nat ->
          OrderAggregator.remove_pool_items steps O self = (self', Return tt)).
Proof.
  cbn [OrderAggregator.remove_items_call].
  set (n := List.length (OrderAggregator.order_items self)).
  exists (fst (OrderAggregator.remove_pool_items n O self)).
  assert (Hcall : OrderAggregator.remove_pool_items n O self =
                  (fst (OrderAggregator.remove_pool_items n O self), Return tt)).
  { rewrite <- (remove_pool_items_returns n O self).
    destruct (OrderAggregator.remove_pool_items n O self); reflexivity. }
  split; [exact Hcall|]; split; [|split].
  - rewrite remove_pool_items_length by (unfold n; lia).
    fold n; rewrite Nat.sub_0_r.
    pose proof (Nat.div_mod_eq n 2) as Hn.
    pose proof (Nat.div_mod_eq (n + 1) 2) as Hn1.
    pose proof (Nat.mod_upper_bound n 2 ltac:(lia)).
    pose proof (Nat.mod_upper_bound (n + 1) 2 ltac:(lia)).
    lia.
  - intros Hnd; destruct self as [pool]; cbn [OrderAggregator.order_items] in *.
    pose proof (remove_pool_items_distinct n [] pool (le_n _) Hnd) as Hpool.
    cbn [List.length app] in Hpool; rewrite Hpool; reflexivity.
  - intros steps Hsteps.
    rewrite (remove_pool_items_steps n steps O self) by (unfold n; lia).
    exact Hcall.
Qed.
